(** * AuthorKit Bookshelf: view tracking, rate limiting and catalog handlers

    A shallow embedding of the JavaScript sources of the bookshelf service
    ([api/_lib/security.js], [api/bookshelf/track-view.js],
    [api/bookshelf/books.js], [js/bookshelf.js]) and the properties of the
    view-tracking pipeline that hold of them. *)

From stdpp Require Import base list strings gmap pretty.
From Stdlib Require Import ZArith Lia Ascii.

Local Open Scope Z_scope.

(** ** JavaScript values and the built-ins the handlers call *)

Module Js.

(** Numbers. A finite number [Finite m e] is the decimal [m * 10^e]; the
    numerals of request bodies and the results of [Number] on numeric strings
    are such decimals. Values are kept in normal form: [e <= 0], and [e < 0]
    only when [m] is not a multiple of 10, so an integer [z] is [Finite z 0].
    Rounding to binary64 and the sign of zero are not modelled. *)
Inductive number : Type :=
  | NaN
  | Infinity (negative : bool)
  | Finite (m : Z) (e : Z).

Global Instance number_eq_dec : EqDecision number.
Proof. solve_decision. Defined.

Definition of_Z (z : Z) : number := Finite z 0.

Fixpoint strip_zeros (fuel : nat) (m e : Z) : number :=
  match fuel with
  | O => Finite m e
  | S fuel' =>
      if decide (e < 0 ∧ m `mod` 10 = 0) then strip_zeros fuel' (m / 10) (e + 1)
      else Finite m e
  end.

Definition normalize (m e : Z) : number :=
  if decide (m = 0) then Finite 0 0
  else if decide (0 <= e) then Finite (m * 10 ^ e) 0
  else strip_zeros (Z.to_nat (- e)) m e.

Definition isNaN (n : number) : bool :=
  match n with NaN => true | _ => false end.

(** [n <= 0] and [n > 0] on numbers; every comparison with [NaN] is false. *)
Definition le_zero (n : number) : bool :=
  match n with
  | NaN => false
  | Infinity negative => negative
  | Finite m _ => bool_decide (m <= 0)
  end.

Definition gt_zero (n : number) : bool :=
  match n with
  | NaN => false
  | Infinity negative => negb negative
  | Finite m _ => bool_decide (0 < m)
  end.

Definition is_zero (n : number) : bool :=
  match n with
  | Finite m _ => bool_decide (m = 0)
  | _ => false
  end.

(** White space and line terminators, within ASCII. *)
Definition is_white_space (c : ascii) : bool := Ascii.is_space c.

Fixpoint trim_start (s : string) : string :=
  match s with
  | String c s' => if is_white_space c then trim_start s' else s
  | EmptyString => EmptyString
  end.

(** [String.prototype.trim]. *)
Definition trim (s : string) : string :=
  String.rev (trim_start (String.rev (trim_start s))).

(** [String.prototype.includes]. *)
Fixpoint includes (s sub : string) : bool :=
  if String.prefix sub s then true
  else match s with
       | String _ s' => includes s' sub
       | EmptyString => false
       end.

(** [s.split(',')[0]]: the part before the first separator. *)
Fixpoint before_first (sep : ascii) (s : string) : string :=
  match s with
  | String c s' => if decide (c = sep) then EmptyString else String c (before_first sep s')
  | EmptyString => EmptyString
  end.

(** The value of a digit in a radix up to 16. *)
Definition digit_value (radix : Z) (c : ascii) : option Z :=
  let n := Z.of_N (Ascii.N_of_ascii c) in
  let v :=
    if decide (48 <= n <= 57) then Some (n - 48)
    else if decide (97 <= n <= 102) then Some (n - 87)
    else if decide (65 <= n <= 70) then Some (n - 55)
    else None in
  match v with
  | Some d => if decide (d < radix) then Some d else None
  | None => None
  end.

(** The longest prefix of digits of [s]: the accumulated value, the number
    of digits read, and the rest of the string. *)
Fixpoint take_digits (radix : Z) (s : string) (acc count : Z) : Z * Z * string :=
  match s with
  | String c s' =>
      match digit_value radix c with
      | Some d => take_digits radix s' (radix * acc + d) (count + 1)
      | None => (acc, count, s)
      end
  | EmptyString => (acc, count, EmptyString)
  end.

(** An optional sign in front of a literal. *)
Definition take_sign (s : string) : Z * string :=
  match s with
  | String "+" s' => (1, s')
  | String "-" s' => (-1, s')
  | _ => (1, s)
  end.

(** A non-decimal integer literal, after its [0x], [0o] or [0b] prefix. *)
Definition radix_literal (radix : Z) (s : string) : number :=
  match take_digits radix s 0 0 with
  | (v, count, EmptyString) => if decide (count = 0) then NaN else of_Z v
  | _ => NaN
  end.

(** An unsigned decimal literal: digits, an optional fraction and an
    optional exponent, with at least one digit before the exponent. *)
Definition decimal_literal (sign : Z) (s : string) : number :=
  let '(i, ni, r1) := take_digits 10 s 0 0 in
  let '(mant, nf, r2) :=
    match r1 with
    | String "." r => take_digits 10 r i 0
    | _ => (i, 0, r1)
    end in
  if decide (ni + nf = 0) then NaN
  else match r2 with
       | EmptyString => normalize (sign * mant) (- nf)
       | String c r3 =>
           if decide (c = "e"%char ∨ c = "E"%char) then
             let '(sx, r4) := take_sign r3 in
             match take_digits 10 r4 0 0 with
             | (x, nx, EmptyString) =>
                 if decide (nx = 0) then NaN
                 else normalize (sign * mant) (sx * x - nf)
             | _ => NaN
             end
           else NaN
       end.

(** [StringToNumber]: the conversion [Number] applies to a string. *)
Definition StringToNumber (s : string) : number :=
  let t := trim s in
  match t with
  | EmptyString => of_Z 0
  | String "0" (String c r) =>
      if decide (c = "x"%char ∨ c = "X"%char) then radix_literal 16 r
      else if decide (c = "o"%char ∨ c = "O"%char) then radix_literal 8 r
      else if decide (c = "b"%char ∨ c = "B"%char) then radix_literal 2 r
      else decimal_literal 1 t
  | _ =>
      let '(sign, r) := take_sign t in
      if decide (r = "Infinity") then Infinity (bool_decide (sign = -1))
      else decimal_literal sign r
  end.

(** [parseInt(string)] without a radix argument. *)
Definition parseInt_string (s : string) : number :=
  let '(sign, r) := take_sign (trim_start s) in
  let '(radix, r) :=
    match r with
    | String "0" (String c r') =>
        if decide (c = "x"%char ∨ c = "X"%char) then (16, r') else (10, r)
    | _ => (10, r)
    end in
  let '(v, count, _) := take_digits radix r 0 0 in
  if decide (count = 0) then NaN else of_Z (sign * v).

Fixpoint strip_trailing_zeros_rev (s : string) : string :=
  match s with
  | String "0" s' => strip_trailing_zeros_rev s'
  | _ => s
  end.

Fixpoint zeros (n : nat) : string :=
  match n with
  | O => EmptyString
  | S n' => String "0" (zeros n')
  end.

Fixpoint string_take (n : nat) (s : string) : string :=
  match n, s with
  | S n', String c s' => String c (string_take n' s')
  | _, _ => EmptyString
  end.

Fixpoint string_drop (n : nat) (s : string) : string :=
  match n, s with
  | S n', String _ s' => string_drop n' s'
  | _, _ => s
  end.

(** [Number::toString] in radix 10, for a positive decimal [m * 10^e]. *)
Definition positive_to_string (m e : Z) : string :=
  let d := pretty m in
  let n := Z.of_nat (String.length d) + e in
  let s := String.rev (strip_trailing_zeros_rev (String.rev d)) in
  let k := Z.of_nat (String.length s) in
  if decide (k <= n <= 21) then s +:+ zeros (Z.to_nat (n - k))
  else if decide (0 < n <= 21) then
    string_take (Z.to_nat n) s +:+ "." +:+ string_drop (Z.to_nat n) s
  else if decide (-6 < n <= 0) then "0." +:+ zeros (Z.to_nat (- n)) +:+ s
  else
    let x := n - 1 in
    let exponent := (if decide (0 <= x) then "+" else "-") +:+ pretty (Z.abs x) in
    if decide (k = 1) then s +:+ "e" +:+ exponent
    else string_take 1 s +:+ "." +:+ string_drop 1 s +:+ "e" +:+ exponent.

Definition NumberToString (n : number) : string :=
  match n with
  | NaN => "NaN"
  | Infinity negative => if negative then "-Infinity" else "Infinity"
  | Finite m e =>
      if decide (m = 0) then "0"
      else if decide (m < 0) then "-" +:+ positive_to_string (- m) e
      else positive_to_string m e
  end.

#[local] Set Warnings "-register-all".

(** JavaScript values as a handler meets them in a parsed request body.
    An object is the list of its own properties in insertion order. *)
Inductive JsValue : Type :=
  | JsUndefined
  | JsNull
  | JsBoolean (b : bool)
  | JsNumber (n : number)
  | JsString (s : string)
  | JsArray (elements : list JsValue)
  | JsObject (properties : list (string * JsValue)).

Definition typeof (v : JsValue) : string :=
  match v with
  | JsUndefined => "undefined"
  | JsNull => "object"
  | JsBoolean _ => "boolean"
  | JsNumber _ => "number"
  | JsString _ => "string"
  | JsArray _ => "object"
  | JsObject _ => "object"
  end.

(** [ToString]; an array joins its elements with commas, [undefined] and
    [null] elements giving the empty string. *)
Fixpoint ToString (v : JsValue) : string :=
  match v with
  | JsUndefined => "undefined"
  | JsNull => "null"
  | JsBoolean b => if b then "true" else "false"
  | JsNumber n => NumberToString n
  | JsString s => s
  | JsArray elements =>
      let element_string (x : JsValue) : string :=
        match x with
        | JsUndefined | JsNull => EmptyString
        | _ => ToString x
        end in
      (fix join (l : list JsValue) : string :=
         match l with
         | [] => EmptyString
         | [x] => element_string x
         | x :: l' => element_string x +:+ "," +:+ join l'
         end) elements
  | JsObject _ => "[object Object]"
  end.

(** [ToNumber], the conversion behind [Number(value)] and the relational
    operators. *)
Definition ToNumber (v : JsValue) : number :=
  match v with
  | JsUndefined => NaN
  | JsNull => of_Z 0
  | JsBoolean b => if b then of_Z 1 else of_Z 0
  | JsNumber n => n
  | JsString s => StringToNumber s
  | JsArray _ | JsObject _ => StringToNumber (ToString v)
  end.

(** [ToBoolean], the truthiness tested by [!], [&&] and [||]. *)
Definition ToBoolean (v : JsValue) : bool :=
  match v with
  | JsUndefined | JsNull => false
  | JsBoolean b => b
  | JsNumber n => negb (isNaN n || is_zero n)
  | JsString s => negb (bool_decide (s = EmptyString))
  | JsArray _ | JsObject _ => true
  end.

(** [parseInt(value)]. *)
Definition parseInt (v : JsValue) : number := parseInt_string (ToString v).

(** Exceptions and completions of a computation that may throw. *)
Inductive Exception : Type :=
  | TypeError (message : string)
  | Rejected (reason : string).

Inductive Completion (A : Type) : Type :=
  | Normal (a : A)
  | Throw (e : Exception).
Global Arguments Normal {A} a.
Global Arguments Throw {A} e.

Definition bind {A B : Type} (c : Completion A) (k : A → Completion B) : Completion B :=
  match c with
  | Normal a => k a
  | Throw e => Throw e
  end.

(** Own-property lookup and assignment on a property list. *)
Fixpoint lookup_property (props : list (string * JsValue)) (field : string) : JsValue :=
  match props with
  | [] => JsUndefined
  | (k, v) :: props' => if decide (k = field) then v else lookup_property props' field
  end.

Fixpoint set_property (props : list (string * JsValue)) (field : string) (value : JsValue)
    : list (string * JsValue) :=
  match props with
  | [] => [(field, value)]
  | (k, v) :: props' =>
      if decide (k = field) then (k, value) :: props'
      else (k, v) :: set_property props' field value
  end.

(** [data[field]]. Reading a property of [undefined] or [null] throws a
    [TypeError]. On an object the own properties are consulted; properties
    inherited from a prototype, and the [length] and index properties of
    strings and arrays, are outside the model (the handlers read [book_id]
    only). *)
Definition get (data : JsValue) (field : string) : Completion JsValue :=
  match data with
  | JsUndefined | JsNull =>
      Throw (TypeError ("Cannot read properties of " +:+ ToString data))
  | JsObject props => Normal (lookup_property props field)
  | _ => Normal JsUndefined
  end.

End Js.

(** ** [api/_lib/security.js]: rate limiter, headers, client address,
       input validation

    The handlers import these from [../_lib/security.js]; in the sources the
    module is the third document of [api/_lib/env-validator.js]. *)

Module Security.

Import Js.

(** [const rateLimitStore = new Map()]. A JavaScript [Map] iterates its keys
    in insertion order and the limiter evicts the first key of that order, so
    the store is an association list, oldest insertion first. *)
Definition RateLimitStore : Type := list (string * Z).

(** [Map.prototype.get]: [None] stands for [undefined]. *)
Fixpoint Map_get (m : RateLimitStore) (key : string) : option Z :=
  match m with
  | [] => None
  | (k, v) :: m' => if decide (k = key) then Some v else Map_get m' key
  end.

(** [Map.prototype.set]: an existing key keeps its place in the iteration
    order, a new key goes last. *)
Fixpoint Map_set (m : RateLimitStore) (key : string) (value : Z) : RateLimitStore :=
  match m with
  | [] => [(key, value)]
  | (k, v) :: m' =>
      if decide (k = key) then (k, value) :: m' else (k, v) :: Map_set m' key value
  end.

(** [Map.prototype.delete]. *)
Fixpoint Map_delete (m : RateLimitStore) (key : string) : RateLimitStore :=
  match m with
  | [] => []
  | (k, v) :: m' =>
      if decide (k = key) then Map_delete m' key else (k, v) :: Map_delete m' key
  end.

(** [Map.prototype.size]. *)
Definition Map_size (m : RateLimitStore) : Z := Z.of_nat (length m).

(** [map.keys().next().value]: the first key in insertion order. *)
Definition Map_first_key (m : RateLimitStore) : option string :=
  match m with
  | [] => None
  | (k, _) :: _ => Some k
  end.

Definition Map_keys (m : RateLimitStore) : list string := m.*1.

(** JavaScript numbers that the limiter handles are integers (epoch
    milliseconds, counters, the window length), modelled in [Z].
    [Math.floor(a / b)] is floor division and [Math.ceil(a / b)] its dual;
    both agree with JavaScript for a positive divisor. *)
Definition Math_floor_div (a b : Z) : Z := a / b.
Definition Math_ceil_div (a b : Z) : Z := - ((- a) / b).

(** The template literal [`${identifier}:${Math.floor(now / windowMs)}`]. *)
Definition rateLimitKey (identifier : string) (now windowMs : Z) : string :=
  identifier +:+ ":" +:+ pretty (Math_floor_div now windowMs).

Record RateLimitResult : Type := mkRateLimitResult {
  allowed : bool;
  retryAfter : Z;
  remaining : Z
}.

(** The eviction threshold written in [rateLimit]. *)
Definition MAX_ENTRIES : Z := 10000.

(** The clean-up step of [rateLimit]: above the threshold the first key of
    the iteration order is deleted. *)
Definition cleanup (store : RateLimitStore) : RateLimitStore :=
  if decide (Map_size store > MAX_ENTRIES) then
    match Map_first_key store with
    | Some oldestKey => Map_delete store oldestKey
    | None => store
    end
  else store.

(** [rateLimit(identifier, maxRequests, windowMs)]. [now] is the value
    [Date.now()] returns during the call; the module-level store is threaded
    through explicitly. *)
Definition rateLimit (now : Z) (identifier : string) (maxRequests windowMs : Z)
    (rateLimitStore : RateLimitStore) : RateLimitResult * RateLimitStore :=
  let key := rateLimitKey identifier now windowMs in
  (* [rateLimitStore.get(key) || 0] *)
  let requestCount :=
    match Map_get rateLimitStore key with
    | Some c => if decide (c = 0) then 0 else c
    | None => 0
    end in
  let requestCount := requestCount + 1 in
  let rateLimitStore := Map_set rateLimitStore key requestCount in
  let rateLimitStore := cleanup rateLimitStore in
  let allowed := bool_decide (requestCount <= maxRequests) in
  let retryAfter := if allowed then 0 else Math_ceil_div windowMs 1000 in
  ({| allowed := allowed;
      retryAfter := retryAfter;
      remaining := Z.max 0 (maxRequests - requestCount) |},
   rateLimitStore).

(** One call of the limiter, as data, and the store after a sequence of
    calls. *)
Record Call : Type := mkCall {
  call_now : Z;
  call_identifier : string;
  call_maxRequests : Z;
  call_windowMs : Z
}.

Definition call_key (c : Call) : string :=
  rateLimitKey (call_identifier c) (call_now c) (call_windowMs c).

Definition step (store : RateLimitStore) (c : Call) : RateLimitStore :=
  (rateLimit (call_now c) (call_identifier c) (call_maxRequests c)
             (call_windowMs c) store).2.

Definition run (calls : list Call) (store : RateLimitStore) : RateLimitStore :=
  foldl step store calls.

(** The count the store holds for a key, 0 when the key is absent. *)
Definition count_of (store : RateLimitStore) (key : string) : Z :=
  default 0 (Map_get store key).


(** The shape of a store a [Map] can hold under the limiter: no key twice,
    and no more entries than the threshold. *)
Definition store_ok (store : RateLimitStore) : Prop :=
  NoDup (Map_keys store) ∧ Map_size store <= MAX_ENTRIES.

(** The call [c] on [store] evicts [key]: the store is full, the call
    inserts a new key, and [key] is the oldest one. *)
Definition evicts (store : RateLimitStore) (c : Call) (key : string) : Prop :=
  Map_size store = MAX_ENTRIES ∧
  Map_get store (call_key c) = None ∧
  Map_first_key store = Some key.

(** A scenario within one window of the limiter as the ingestion handler
    configures it (100 requests an hour): one client calls twice, then [n]
    other clients call once each, all at the same instant. *)
Definition victim : Call := mkCall 0 "203.0.113.7" 100 3600000.

Definition other (i : nat) : Call :=
  mkCall 0 ("198.51.100." +:+ pretty (Z.of_nat i)) 100 3600000.

Definition flood (n : nat) : list Call := other <$> seq 0 n.

(** *** Requests and responses *)

(** What the handlers read of a request: [req.method], [req.headers],
    [req.connection?.remoteAddress], [req.query] and the parsed [req.body]
    ([JsUndefined] when the request carries none). *)
Record Request : Type := mkRequest {
  method : string;
  headers : list (string * string);
  remoteAddress : option string;
  query : list (string * string);
  body : JsValue
}.

Fixpoint header (hs : list (string * string)) (name : string) : option string :=
  match hs with
  | [] => None
  | (k, v) :: hs' => if decide (k = name) then Some v else header hs' name
  end.

(** What a handler may pass to [res.json]: a value built by one of the
    helpers of [_lib/errors.js], kept symbolic as the helper call itself. *)
Inductive ErrorsCall : Type :=
  | methodNotAllowedError (allowedMethod : string)
  | rateLimitError (retryAfter : Z)
  | validationError (message : string) (errors : option (list string))
  | internalError (isDevelopment : bool) (error : Exception).

Inductive Body : Type :=
  | body_unset
  | body_end
  | body_json (value : JsValue)
  | body_errors (call : ErrorsCall).

Record Response : Type := mkResponse {
  statusCode : Z;
  responseHeaders : list (string * string);
  responseBody : Body
}.

Definition new_response : Response := mkResponse 200 [] body_unset.

(** [res.setHeader(name, value)] replaces an earlier value of the header. *)
Fixpoint set_header (hs : list (string * string)) (name value : string)
    : list (string * string) :=
  match hs with
  | [] => [(name, value)]
  | (k, v) :: hs' =>
      if decide (k = name) then (k, value) :: hs' else (k, v) :: set_header hs' name value
  end.

Definition setHeader (name value : string) (res : Response) : Response :=
  mkResponse (statusCode res) (set_header (responseHeaders res) name value)
             (responseBody res).

Definition status (code : Z) (res : Response) : Response :=
  mkResponse code (responseHeaders res) (responseBody res).

Definition json (b : Body) (res : Response) : Response :=
  mkResponse (statusCode res) (responseHeaders res) b.

Definition end_ (res : Response) : Response :=
  mkResponse (statusCode res) (responseHeaders res) body_end.

(** [setCorsHeaders(req, res)]. *)
Definition setCorsHeaders (req : Request) (res : Response) : Response :=
  let origin := header (headers req) "origin" in
  let res :=
    match origin with
    | Some o =>
        if negb (bool_decide (o = EmptyString))
           && (includes o "authorkit.pro"
               || includes o "localhost"
               || match header (headers req) "user-agent" with
                  | Some ua => includes ua "WordPress"
                  | None => false
                  end)
        then setHeader "Access-Control-Allow-Origin" o res
        else setHeader "Access-Control-Allow-Origin" "*" res
    | None => setHeader "Access-Control-Allow-Origin" "*" res
    end in
  let res := setHeader "Access-Control-Allow-Methods" "GET, POST, PUT, DELETE, OPTIONS" res in
  let res := setHeader "Access-Control-Allow-Headers" "Content-Type, Authorization" res in
  setHeader "Access-Control-Max-Age" "86400" res.

(** [setSecurityHeaders(res)]. *)
Definition setSecurityHeaders (res : Response) : Response :=
  let res := setHeader "X-Content-Type-Options" "nosniff" res in
  let res := setHeader "X-Frame-Options" "DENY" res in
  let res := setHeader "X-XSS-Protection" "1; mode=block" res in
  setHeader "Referrer-Policy" "strict-origin-when-cross-origin" res.

(** [a || b] on strings that may be [undefined]: the empty string is falsy. *)
Definition or_else (a : option string) (b : option string) : option string :=
  match a with
  | Some s => if decide (s = EmptyString) then b else Some s
  | None => b
  end.

(** [getClientIp(req)]. *)
Definition getClientIp (req : Request) : string :=
  let forwarded :=
    (λ v, trim (before_first ","%char v)) <$> header (headers req) "x-forwarded-for" in
  default "unknown"
    (or_else forwarded
       (or_else (header (headers req) "x-real-ip")
          (or_else (remoteAddress req) None))).

(** *** [validateInput] *)

(** The rules a schema gives for one field; an absent rule is [None]. *)
Record Rules : Type := mkRules {
  required : bool;
  type : option string;
  minLength : option Z;
  maxLength : option Z
}.

Definition Schema : Type := list (string * Rules).

Record ValidationResult : Type := mkValidationResult {
  isValid : bool;
  errors : list string;
  data : list (string * JsValue)
}.

(** [value === undefined || value === null || value === ''] *)
Definition is_missing (value : JsValue) : bool :=
  match value with
  | JsUndefined | JsNull => true
  | JsString s => bool_decide (s = EmptyString)
  | _ => false
  end.

(** [rules.minLength && ...]: a length rule is applied when it is present
    and not zero. *)
Definition rule_set (rule : option Z) : option Z :=
  match rule with
  | Some n => if decide (n = 0) then None else Some n
  | None => None
  end.

(** The statements after the [switch] of one loop iteration: the length
    rules and the copy into [sanitized]. *)
Definition validate_length (field : string) (rules : Rules) (value : JsValue)
    (acc : list string * list (string * JsValue)) : list string * list (string * JsValue) :=
  let '(errors, sanitized) := acc in
  match value with
  | JsString s =>
      let len := Z.of_nat (String.length s) in
      let errors :=
        match rule_set (minLength rules) with
        | Some n =>
            if decide (len < n)
            then errors ++ [field +:+ " must be at least " +:+ pretty n +:+ " characters"]
            else errors
        | None => errors
        end in
      let errors :=
        match rule_set (maxLength rules) with
        | Some n =>
            if decide (len > n)
            then errors ++ [field +:+ " must be at most " +:+ pretty n +:+ " characters"]
            else errors
        | None => errors
        end in
      (errors, set_property sanitized field (JsString (trim s)))
  | _ => (errors, set_property sanitized field value)
  end.

(** One iteration of the loop over [Object.entries(schema)]. [errors.push]
    appends; [continue] ends the iteration. *)
Definition validate_field (data : JsValue) (entry : string * Rules)
    (acc : list string * list (string * JsValue))
    : Completion (list string * list (string * JsValue)) :=
  let '(field, rules) := entry in
  let '(errors, sanitized) := acc in
  bind (get data field) (λ value,
    if required rules && is_missing value then
      Normal (errors ++ [field +:+ " is required"], sanitized)
    else if negb (required rules) && is_missing value then
      Normal (errors, sanitized)
    else
      (* [switch (rules.type)] *)
      if decide (type rules = Some "string") then
        if negb (bool_decide (typeof value = "string"))
        then Normal (errors ++ [field +:+ " must be a string"], sanitized)
        else Normal (validate_length field rules value (errors, sanitized))
      else if decide (type rules = Some "number") then
        if negb (bool_decide (typeof value = "number")) && isNaN (ToNumber value)
        then Normal (errors ++ [field +:+ " must be a number"], sanitized)
        else Normal (errors, set_property sanitized field (JsNumber (ToNumber value)))
      else if decide (type rules = Some "boolean") then
        if negb (bool_decide (typeof value = "boolean"))
        then Normal (errors ++ [field +:+ " must be a boolean"], sanitized)
        else Normal (validate_length field rules value (errors, sanitized))
      else if decide (type rules = Some "array") then
        if negb (match value with JsArray _ => true | _ => false end)
        then Normal (errors ++ [field +:+ " must be an array"], sanitized)
        else Normal (validate_length field rules value (errors, sanitized))
      else Normal (validate_length field rules value (errors, sanitized))).


Fixpoint validate_fields (data : JsValue) (schema : Schema)
    (acc : list string * list (string * JsValue))
    : Completion (list string * list (string * JsValue)) :=
  match schema with
  | [] => Normal acc
  | entry :: schema' =>
      bind (validate_field data entry acc) (validate_fields data schema')
  end.

(** [validateInput(data, schema)]. *)
Definition validateInput (data : JsValue) (schema : Schema) : Completion ValidationResult :=
  bind (validate_fields data schema ([], []))
       (λ '(errors, sanitized),
          Normal (mkValidationResult (bool_decide (length errors = 0%nat)) errors sanitized)).

End Security.

(** ** [api/_lib/errors.js] *)

Module Errors.

(** Modelled from the spec: the [HTTP_STATUS] table of [_lib/errors.js],
    which is not among the sources. The spec gives the codes of the
    responses: 200 on acceptance, 400, 429 and 405 on rejection, and an
    internal error otherwise (500, as the catalog handler writes it). *)
Module HTTP_STATUS.

Definition OK : Z := 200.
Definition BAD_REQUEST : Z := 400.
Definition METHOD_NOT_ALLOWED : Z := 405.
Definition TOO_MANY_REQUESTS : Z := 429.
Definition INTERNAL_ERROR : Z := 500.

End HTTP_STATUS.

End Errors.

(** ** The datastore and the state of a serving process *)

Module Store.

Import Js Security.

(** The columns of [bookshelf_books] and [bookshelf_book_genres] that the
    statistics read (DATABASE-SCHEMA.sql). *)
Record BookRow : Type := mkBookRow {
  book_id : Z;
  site_url : string;
  title : string
}.

Record GenreRow : Type := mkGenreRow {
  genre_book_id : Z;
  genre_slug : string
}.

(** The single row of the materialized view [bookshelf_stats]. *)
Record Stats : Type := mkStats {
  total_books : Z;
  total_authors : Z;
  total_genres : Z
}.

(** The tables; a row of [bookshelf_book_views] is kept as the object the
    handler passes to [insert]. *)
Record Datastore : Type := mkDatastore {
  bookshelf_books : list BookRow;
  bookshelf_book_genres : list GenreRow;
  bookshelf_book_views : list JsValue;
  bookshelf_stats : Stats
}.

(** [REFRESH MATERIALIZED VIEW bookshelf_stats]: the number of rows of
    [bookshelf_books], of distinct [site_url] and of distinct [genre_slug]. *)
Definition refresh_bookshelf_stats (db : Datastore) : Datastore :=
  mkDatastore (bookshelf_books db) (bookshelf_book_genres db) (bookshelf_book_views db)
    (mkStats (Z.of_nat (length (bookshelf_books db)))
             (Z.of_nat (length (remove_dups (site_url <$> bookshelf_books db))))
             (Z.of_nat (length (remove_dups (genre_slug <$> bookshelf_book_genres db))))).

(** What [supabase.from('bookshelf_book_views').insert(row)] comes to: the
    row is stored, the call resolves with an [error], or the call throws. The
    datastore is an external service, so the outcome is an input of the
    handler. *)
Inductive InsertOutcome : Type :=
  | InsertOk
  | InsertError (error : string)
  | InsertThrows (e : Exception).

(** Entries written by [logger.error], [console.error] and
    [console.debug]. *)
Inductive LogDetail : Type :=
  | storage_error (error : string)
  | formatted_storage_error (error : string)
  | caught (e : Exception).

Inductive LogEntry : Type :=
  | logger_error (message : string) (detail : LogDetail)
  | console_error (message : string) (detail : LogDetail).

(** The state a handler can change: the limiter's module-level map, the
    datastore and the log. *)
Record World : Type := mkWorld {
  rateLimitStore : RateLimitStore;
  db : Datastore;
  log : list LogEntry
}.

(** What a handler reads from its environment during one request. *)
Record Env : Type := mkEnv {
  Date_now : Z;
  NODE_ENV : option string;
  insert_outcome : InsertOutcome
}.

Definition with_store (w : World) (store : RateLimitStore) : World :=
  mkWorld store (db w) (log w).

Definition with_log (w : World) (entry : LogEntry) : World :=
  mkWorld (rateLimitStore w) (db w) (log w ++ [entry]).

Definition insert_view (w : World) (row : JsValue) : World :=
  mkWorld (rateLimitStore w)
    (mkDatastore (bookshelf_books (db w)) (bookshelf_book_genres (db w))
                 (bookshelf_book_views (db w) ++ [row]) (bookshelf_stats (db w)))
    (log w).

(** A process that has just started, in front of an empty datastore. *)
Definition empty_datastore : Datastore := mkDatastore [] [] [] (mkStats 0 0 0).

Definition new_world : World := mkWorld [] empty_datastore [].

(** A request as a handler sees it when only the method, the caller's
    address and the parsed body matter, and an environment in which the
    datastore accepts the insert. *)
Definition request_from (m : string) (ip : string) (b : JsValue) : Request :=
  mkRequest m [("x-forwarded-for", ip)] None [] b.

Definition quiet : Env := mkEnv 1700000000000 (Some "production") InsertOk.

(** A handler's result: the status and body it answers with and the state
    it leaves. *)
Definition responds (result : Response * World) (code : Z) (b : Body) (w : World) : Prop :=
  statusCode result.1 = code ∧ responseBody result.1 = b ∧ result.2 = w.

End Store.

(** ** [api/bookshelf/track-view.js]: the rate-limited handler *)

Module TrackView.

Import Js Security Errors Store.

(** The schema the handler passes to [validateInput]. *)
Definition schema : Schema :=
  [("book_id", mkRules true (Some "number") None None)].

Definition tracked_envelope (tracked : bool) : Body :=
  body_json (JsObject [("success", JsBoolean true); ("tracked", JsBoolean tracked)]).

(** The body of the [try] block. An exception leaves the state as it was:
    the block logs only when the insert has returned. *)
Definition try_block (req : Request) (env : Env) (w : World) (res : Response)
    : Completion (Response * World) :=
  bind (validateInput (body req) schema) (λ validation,
    if negb (isValid validation) then
      Normal (json (body_errors (validationError "Validation failed"
                                   (Some (errors validation))))
                   (status HTTP_STATUS.BAD_REQUEST res), w)
    else
      let bookId := lookup_property (data validation) "book_id" in
      if le_zero (ToNumber bookId) then
        Normal (json (body_errors (validationError "book_id must be a positive number" None))
                     (status HTTP_STATUS.BAD_REQUEST res), w)
      else
        match insert_outcome env with
        | InsertThrows e => Throw e
        | InsertError error =>
            Normal (json (tracked_envelope false) (status HTTP_STATUS.OK res),
                    with_log w (logger_error "Failed to track view" (storage_error error)))
        | InsertOk =>
            Normal (json (tracked_envelope true) (status HTTP_STATUS.OK res),
                    insert_view w (JsObject [("book_id", bookId)]))
        end).

(** The [catch] clause. *)
Definition catch_block (error : Exception) (env : Env) (w : World) (res : Response)
    : Response * World :=
  let isDevelopment := bool_decide (NODE_ENV env = Some "development") in
  (json (body_errors (internalError isDevelopment error))
        (status HTTP_STATUS.INTERNAL_ERROR res),
   with_log w (logger_error "Error tracking view" (caught error))).

(** [handler(req, res)]. *)
Definition handler (req : Request) (env : Env) (w : World) : Response * World :=
  let res := setSecurityHeaders (setCorsHeaders req new_response) in
  if decide (method req = "OPTIONS") then (end_ (status 200 res), w)
  else if decide (method req ≠ "POST") then
    (json (body_errors (methodNotAllowedError "POST"))
          (status HTTP_STATUS.METHOD_NOT_ALLOWED res), w)
  else
    let clientIp := getClientIp req in
    let '(rateLimitResult, store) :=
      rateLimit (Date_now env) clientIp 100 3600000 (rateLimitStore w) in
    let w := with_store w store in
    if negb (allowed rateLimitResult) then
      (json (body_errors (rateLimitError (retryAfter rateLimitResult)))
            (status HTTP_STATUS.TOO_MANY_REQUESTS res), w)
    else
      match try_block req env w res with
      | Normal result => result
      | Throw error => catch_block error env w res
      end.

(** The response as the handler has prepared it before it looks at the
    method, the limiter's answer to the request, and the state once the
    limiter has counted it. *)
Definition prepared (req : Request) : Response :=
  setSecurityHeaders (setCorsHeaders req new_response).

Definition limiter (req : Request) (env : Env) (w : World) : RateLimitResult :=
  (rateLimit (Date_now env) (getClientIp req) 100 3600000 (rateLimitStore w)).1.

Definition counted (req : Request) (env : Env) (w : World) : World :=
  with_store w (rateLimit (Date_now env) (getClientIp req) 100 3600000
                          (rateLimitStore w)).2.

End TrackView.

(** ** [track-view.js], second handler of the file: no limiter, no helpers *)

Module TrackViewLegacy.

Import Js Security Store.

Definition error_envelope (message : string) : Body :=
  body_json (JsObject [("success", JsBoolean false); ("error", JsString message)]).

Definition tracked_envelope (tracked : bool) : Body :=
  body_json (JsObject [("success", JsBoolean true); ("tracked", JsBoolean tracked)]).

(** The body of the [try] block; [const { book_id } = req.body] throws on a
    missing body. *)
Definition try_block (req : Request) (env : Env) (w : World) (res : Response)
    : Completion (Response * World) :=
  bind (get (body req) "book_id") (λ book_id,
    if negb (ToBoolean book_id) || isNaN (parseInt book_id) then
      Normal (json (error_envelope "Invalid book_id. Must be a number.") (status 400 res), w)
    else
      let bookId := JsNumber (parseInt book_id) in
      match insert_outcome env with
      | InsertThrows e => Throw e
      | InsertError error =>
          Normal (json (tracked_envelope false) (status 200 res),
                  with_log w (console_error "Failed to track view:"
                                            (formatted_storage_error error)))
      | InsertOk =>
          Normal (json (tracked_envelope true) (status 200 res),
                  insert_view w (JsObject [("book_id", bookId)]))
      end).

(** The [catch] clause: the request is not failed. *)
Definition catch_block (error : Exception) (w : World) (res : Response) : Response * World :=
  (json (tracked_envelope false) (status 200 res),
   with_log w (console_error "Error tracking view:" (caught error))).

Definition handler (req : Request) (env : Env) (w : World) : Response * World :=
  let res := new_response in
  if decide (method req ≠ "POST") then
    (json (error_envelope "Method not allowed. Use POST.") (status 405 res), w)
  else
    match try_block req env w res with
    | Normal result => result
    | Throw error => catch_block error w res
    end.

End TrackViewLegacy.

(** ** [api/bookshelf/books.js]: the catalog listing *)

Module Books.

Import Js Security Store.

Definition num (z : Z) : JsValue := JsNumber (of_Z z).

(** The listing the handler returns "for now": empty data. *)
Definition listing : JsValue :=
  JsObject
    [("success", JsBoolean true);
     ("books", JsArray []);
     ("pagination",
      JsObject [("page", num 1); ("limit", num 20); ("total", num 0); ("pages", num 0)]);
     ("stats", JsObject [("total_books", num 0); ("total_authors", num 0)])].

(** [handler(req, res)]. Nothing in its [try] block throws, so the [catch]
    clause is never entered; the datastore is not consulted. *)
Definition handler (req : Request) (w : World) : Response * World :=
  let res := new_response in
  if decide (method req ≠ "GET") then
    (json (body_json (JsObject [("success", JsBoolean false);
                                ("error", JsString "Method not allowed. Use GET.")]))
          (status 405 res), w)
  else
    (json (body_json listing) (status 200 res), w).

(** Reading a field of a JSON response body. *)
Definition field (b : Body) (path : list string) : JsValue :=
  match b with
  | body_json v =>
      foldl (λ v name, match v with
                       | JsObject props => lookup_property props name
                       | _ => JsUndefined
                       end) v path
  | _ => JsUndefined
  end.

(** A datastore holding five books of three sites, its statistics just
    refreshed, and the request [GET /books?page=1&limit=20]. *)
Definition five_books : Datastore :=
  refresh_bookshelf_stats
    (mkDatastore
       [mkBookRow 1 "https://a.example" "One"; mkBookRow 2 "https://a.example" "Two";
        mkBookRow 3 "https://b.example" "Three"; mkBookRow 4 "https://b.example" "Four";
        mkBookRow 5 "https://c.example" "Five"]
       [] [] (mkStats 0 0 0)).

Definition shelf : World := mkWorld [] five_books [].

Definition first_page : Request :=
  mkRequest "GET" [] None [("page", "1"); ("limit", "20")] JsUndefined.

End Books.

(** ** [js/bookshelf.js]: the client-side view observer *)

Module Bookshelf.

Import Js Security.

(** What the observer callback reads of an [IntersectionObserverEntry]:
    [entry.isIntersecting] and [entry.target.dataset.bookId] ([None] when the
    element has no [data-book-id]). The observer is created with
    [threshold: 0.5]; the browser decides when entries are delivered. *)
Record Entry : Type := mkEntry {
  isIntersecting : bool;
  bookId : option string
}.

(** The [fetch] call of [trackBookView(bookId)]; [fetch_body] is the value
    given to [JSON.stringify]. *)
Record Fetch : Type := mkFetch {
  fetch_url : string;
  fetch_method : string;
  fetch_headers : list (string * string);
  fetch_body : JsValue
}.

Definition trackBookView (bookId : string) : Fetch :=
  mkFetch "/api/bookshelf/track-view" "POST"
          [("Content-Type", "application/json")]
          (JsObject [("book_id", JsString bookId)]).

(** The page state: the set [viewedBooks] and the calls issued so far. *)
Record Page : Type := mkPage {
  viewedBooks : gset string;
  issued : list Fetch
}.

Definition new_page : Page := mkPage ∅ [].

(** The body of [entries.forEach(entry => ...)] for one entry. *)
Definition on_entry (page : Page) (entry : Entry) : Page :=
  if isIntersecting entry then
    match bookId entry with
    | Some id =>
        if negb (bool_decide (id = EmptyString)) && negb (bool_decide (id ∈ viewedBooks page))
        then mkPage ({[id]} ∪ viewedBooks page) (issued page ++ [trackBookView id])
        else page
    | None => page
    end
  else page.

(** One invocation of the observer callback, and a session of them. *)
Definition viewObserver (page : Page) (entries : list Entry) : Page :=
  foldl on_entry page entries.

Definition session (batches : list (list Entry)) : Page :=
  foldl viewObserver new_page batches.

(** The identifier a call reports, and the calls issued for one
    identifier. *)
Definition reported_id (f : Fetch) : option string :=
  match fetch_body f with
  | JsObject [(k, JsString id)] => if decide (k = "book_id") then Some id else None
  | _ => None
  end.

Definition calls_for (id : string) (page : Page) : list Fetch :=
  filter (λ f, reported_id f = Some id) (issued page).

(** An entry that makes the callback issue a call for [id]. *)
Definition shows (id : string) (entry : Entry) : Prop :=
  isIntersecting entry = true ∧ bookId entry = Some id.

(** The calls issued for an identifier are one call if the identifier is in
    [viewedBooks], none otherwise. *)
Definition consistent (page : Page) : Prop :=
  ∀ id, calls_for id page = if decide (id ∈ viewedBooks page) then [trackBookView id] else [].

(** The request the ingestion endpoint receives for a [fetch] call: the
    body is parsed back from its JSON text. *)
Definition request_of (f : Fetch) (hs : list (string * string))
    (remote : option string) : Request :=
  mkRequest (fetch_method f) hs remote [] (fetch_body f).

End Bookshelf.

(** ** Property names every plain object inherits *)

Module ObjectPrototype.

(** The properties of [Object.prototype]. Reading one of these names from a
    plain object that has no own property of the name gives the inherited
    value, a function or the prototype, and not [undefined]. The lookups of
    this development consult own properties; a statement about all names is
    made for names outside this list. *)
Definition Object_prototype_names : list string :=
  ["constructor"; "__defineGetter__"; "__defineSetter__"; "hasOwnProperty";
   "__lookupGetter__"; "__lookupSetter__"; "isPrototypeOf"; "propertyIsEnumerable";
   "toString"; "valueOf"; "__proto__"; "toLocaleString"].

Definition own_only (name : string) : Prop := name ∉ Object_prototype_names.

Global Instance own_only_dec name : Decision (own_only name).
Proof. unfold own_only. apply _. Defined.

End ObjectPrototype.

(** ** Where the conversions of the development are those of the code *)

Module Exact.

Import Js Security.

(** A string of ASCII characters. On such a string a character is one
    UTF-16 code unit, so [String.length] is [length], and the white space that
    [trim], [Number] and [parseInt] skip is the white space of
    [is_white_space]; other strings (a no-break space, an accented letter) are
    left to no statement that trims or measures them. *)
Fixpoint is_ascii (s : string) : bool :=
  match s with
  | EmptyString => true
  | String c s' => (Ascii.N_of_ascii c <? 128)%N && is_ascii s'
  end.

(** [Number.MAX_SAFE_INTEGER], and the numbers that a binary64 value holds
    as the development writes them: NaN, the infinities and the integers up
    to [MAX_SAFE_INTEGER] in absolute value. A numeral that underflows,
    overflows or is rounded (["1e-400"], ["1e999"], ["9007199254740993"]) is
    not among them. *)
Definition MAX_SAFE_INTEGER : Z := 9007199254740991.

Definition exact (n : number) : bool :=
  match n with
  | NaN | Infinity _ => true
  | Finite m e => bool_decide (e = 0 ∧ - MAX_SAFE_INTEGER <= m <= MAX_SAFE_INTEGER)
  end.

Definition has_own (properties : list (string * JsValue)) (name : string) : bool :=
  bool_decide (name ∈ properties.*1).

(** The values on which [ToNumber] is what [Number(value)] returns: the
    primitives, a string being ASCII and its number exact, and the objects
    without an own [toString] (on an object of a parsed body that has one,
    which is not callable, [Number] throws a TypeError). Arrays are left
    out. *)
Definition Number_exact (v : JsValue) : bool :=
  match v with
  | JsUndefined | JsNull | JsBoolean _ => true
  | JsNumber n => exact n
  | JsString s => is_ascii s && exact (StringToNumber s)
  | JsArray _ => false
  | JsObject properties => negb (has_own properties "toString")
  end.

(** The same for [parseInt(value)], which converts its argument to a string
    first. *)
Definition parseInt_exact (v : JsValue) : bool :=
  match v with
  | JsUndefined | JsNull | JsBoolean _ => true
  | JsNumber n => exact n
  | JsString s => is_ascii s && exact (parseInt_string s)
  | JsArray _ => false
  | JsObject properties => negb (has_own properties "toString")
  end.

(** What [validateInput] does to a value under the rules of its field is
    what the development says: [Number] is applied under the rule
    [type: 'number'] only, and strings are measured and trimmed. *)
Definition checked_exactly (rules : Rules) (value : JsValue) : bool :=
  (if decide (type rules = Some "number") then Number_exact value else true)
  && match value with
     | JsString s => is_ascii s
     | _ => true
     end.

(** The same for every field of a schema read from an object. *)
Definition schema_exact (properties : list (string * JsValue)) (schema : Schema) : Prop :=
  Forall (λ entry, ObjectPrototype.own_only entry.1
                   ∧ checked_exactly entry.2 (lookup_property properties entry.1) = true)
         schema.

End Exact.

(** ** [api/_lib/env-validator.js]: the environment variables *)

Module EnvValidator.

(** One entry of [ENV_REQUIREMENTS]; a key the entry does not have is
    [None] (or [false]). *)
Record Requirement : Type := mkRequirement {
  req_required : bool;
  req_description : string;
  req_example : option string;
  req_sensitive : bool;
  req_default : option string;
  req_validValues : option (list string);
  req_minLength : option Z
}.

Definition ENV_REQUIREMENTS : list (string * Requirement) :=
  [("SUPABASE_URL",
    mkRequirement true "Supabase project URL" (Some "https://xxxxx.supabase.co")
                  false None None None);
   ("SUPABASE_ANON_KEY",
    mkRequirement true "Supabase anonymous/public API key" None true None None None);
   ("AMAZON_AFFILIATE_TAG",
    mkRequirement false "Amazon Associates affiliate tag for buy links"
                  (Some "yourtaghere-20") false (Some "minihover-21") None None);
   ("NODE_ENV",
    mkRequirement false "Node environment (development, production)" None false
                  (Some "production") (Some ["development"; "production"; "test"]) None)].

(** [ENV_REQUIREMENTS[varName]], own properties only. *)
Fixpoint requirement_in (table : list (string * Requirement)) (varName : string)
    : option Requirement :=
  match table with
  | [] => None
  | (k, r) :: table' => if decide (k = varName) then Some r else requirement_in table' varName
  end.

Definition requirement (varName : string) : option Requirement :=
  requirement_in ENV_REQUIREMENTS varName.

(** [process.env], and [process.env[varName]]. *)
Definition ProcessEnv : Type := list (string * string).

Fixpoint env_get (env : ProcessEnv) (varName : string) : option string :=
  match env with
  | [] => None
  | (k, v) :: env' => if decide (k = varName) then Some v else env_get env' varName
  end.

(** [!value]: the variable is not set or is the empty string. *)
Definition unset (value : option string) : bool :=
  match value with
  | Some v => bool_decide (v = EmptyString)
  | None => true
  end.

Definition LF : string := String "010"%char EmptyString.
Definition QUOTE : string := String "034"%char EmptyString.

(** [Array.prototype.join]. *)
Fixpoint join (sep : string) (l : list string) : string :=
  match l with
  | [] => EmptyString
  | [x] => x
  | x :: l' => x +:+ sep +:+ join sep l'
  end.

Record EnvValidation : Type := mkEnvValidation {
  valid : bool;
  env_errors : list string;
  env_warnings : list string
}.

Definition missing_message (varName : string) (requirements : Requirement) : string :=
  "Missing required environment variable: " +:+ varName +:+ LF +:+
  "  Description: " +:+ req_description requirements +:+ LF +:+
  match req_example requirements with
  | Some example =>
      if decide (example = EmptyString) then EmptyString else "  Example: " +:+ example
  | None => EmptyString
  end.

Definition too_short_message (varName : string) (minLength : Z) (value : string) : string :=
  "Environment variable " +:+ varName +:+ " is too short" +:+ LF +:+
  "  Minimum length: " +:+ pretty minLength +:+ " characters" +:+ LF +:+
  "  Current length: " +:+ pretty (Z.of_nat (String.length value)) +:+ " characters".

Definition invalid_message (varName value : string) (validValues : list string) : string :=
  "Invalid value for " +:+ varName +:+ ": " +:+ QUOTE +:+ value +:+ QUOTE +:+ LF +:+
  "  Valid values: " +:+ join ", " validValues.

(** One iteration of the loop of [validateEnv] over [varsToCheck]. *)
Definition check_var (env : ProcessEnv) (acc : list string * list string)
    (varName : string) : list string * list string :=
  let '(errors, warnings) := acc in
  match requirement varName with
  | None => (errors, warnings ++ ["Unknown environment variable: " +:+ varName])
  | Some requirements =>
      let value := env_get env varName in
      if req_required requirements && unset value then
        (errors ++ [missing_message varName requirements], warnings)
      else
        match value with
        | None => (errors, warnings)
        | Some v =>
            if decide (v = EmptyString) then (errors, warnings)
            else
              let errors :=
                match req_minLength requirements with
                | Some n =>
                    if decide (n ≠ 0 ∧ Z.of_nat (String.length v) < n)
                    then errors ++ [too_short_message varName n v]
                    else errors
                | None => errors
                end in
              let errors :=
                match req_validValues requirements with
                | Some validValues =>
                    if decide (v ∈ validValues) then errors
                    else errors ++ [invalid_message varName v validValues]
                | None => errors
                end in
              (errors, warnings)
        end
  end.

(** [validateEnv(requiredVars = null)]: [None] is [null] or no argument; a
    list, also an empty one, is checked as it is. *)
Definition validateEnv (requiredVars : option (list string)) (env : ProcessEnv)
    : EnvValidation :=
  let varsToCheck := default (ENV_REQUIREMENTS.*1) requiredVars in
  let '(errors, warnings) := foldl (check_var env) ([], []) varsToCheck in
  mkEnvValidation (bool_decide (length errors = 0%nat)) errors warnings.

(** What a function of the module comes to: a value, or [throw new
    Error(message)]. *)
Inductive Outcome (A : Type) : Type :=
  | Returns (a : A)
  | ThrowsError (message : string).
Global Arguments Returns {A} a.
Global Arguments ThrowsError {A} message.

(** [requireEnv(requiredVars)]. It returns nothing; what is kept of a
    normal return is the array it hands to [console.warn], if it warns. *)
Definition requireEnv (requiredVars : option (list string)) (env : ProcessEnv)
    : Outcome (option (list string)) :=
  let result := validateEnv requiredVars env in
  if negb (valid result) then
    ThrowsError
      (join LF (["Environment variable validation failed:"; EmptyString]
                ++ env_errors result
                ++ [EmptyString;
                    "Please check your .env file or Vercel environment variables."]))
  else if negb (bool_decide (env_get env "NODE_ENV" = Some "production"))
          && bool_decide (0 < length (env_warnings result))%nat
  then Returns (Some (env_warnings result))
  else Returns None.

(** [getEnv(varName, defaultValue = null)]; [None] is [null], as an
    argument and as a result. *)
Definition getEnv (varName : string) (defaultValue : option string) (env : ProcessEnv)
    : Outcome (option string) :=
  let value := env_get env varName in
  let throws :=
    unset value && bool_decide (defaultValue = None)
    && match requirement varName with
       | Some r => req_required r
       | None => false
       end in
  if throws then
    ThrowsError ("Required environment variable " +:+ varName +:+ " is not set" +:+ LF +:+
                 "Description: " +:+
                 match requirement varName with
                 | Some r => req_description r
                 | None => EmptyString
                 end)
  else if unset value then Returns defaultValue else Returns value.

(** [isDevelopment()] and [isProduction()]. *)
Definition isDevelopment (env : ProcessEnv) : bool :=
  bool_decide (env_get env "NODE_ENV" = Some "development").

Definition isProduction (env : ProcessEnv) : bool :=
  bool_decide (env_get env "NODE_ENV" = Some "production").

End EnvValidator.

(** ** [api/_lib/sanitize.js]: text, truncation and URLs

    In the sources the module is the second document of
    [api/_lib/env-validator.js]. [sanitizeHtml] works by regular expressions
    with look-ahead and a replacement callback and is not embedded. *)

Module Sanitize.

Import Js.

(** [s.replace(/c/g, by)] for a single character [c] and a replacement
    without [$] patterns. *)
Fixpoint replace_char (c : ascii) (by_ : string) (s : string) : string :=
  match s with
  | EmptyString => EmptyString
  | String a s' =>
      if decide (a = c) then by_ +:+ replace_char c by_ s'
      else String a (replace_char c by_ s')
  end.

(** The entity [sanitizeText] writes for a character, the encoding of a
    string character by character, and whether a character occurs in a
    string. *)
Definition encode_char (a : ascii) : string :=
  if decide (a = "&"%char) then "&amp;"
  else if decide (a = "<"%char) then "&lt;"
  else if decide (a = ">"%char) then "&gt;"
  else if decide (a = "034"%char) then "&quot;"
  else if decide (a = "'"%char) then "&#x27;"
  else if decide (a = "/"%char) then "&#x2F;"
  else String a EmptyString.

Fixpoint encode (s : string) : string :=
  match s with
  | EmptyString => EmptyString
  | String a s' => encode_char a +:+ encode s'
  end.

Fixpoint occurs (c : ascii) (s : string) : bool :=
  match s with
  | EmptyString => false
  | String a s' => bool_decide (a = c) || occurs c s'
  end.

(** [!text || typeof text !== 'string'] *)
Definition not_text (text : JsValue) : bool :=
  negb (ToBoolean text) || negb (bool_decide (typeof text = "string")).

(** [sanitizeText(text)]. *)
Definition sanitizeText (text : JsValue) : string :=
  if not_text text then EmptyString
  else match text with
       | JsString s =>
           replace_char "/" "&#x2F;"
             (replace_char "'" "&#x27;"
                (replace_char "034" "&quot;"
                   (replace_char ">" "&gt;"
                      (replace_char "<" "&lt;"
                         (replace_char "&" "&amp;" s)))))
       | _ => EmptyString
       end.

(** [text.substring(0, maxLength)]: the end is clamped to the string.
    Lengths and positions count characters, which are the code units of the
    text when it is ASCII ([Exact.is_ascii]). *)
Definition substring_from_0 (s : string) (maxLength : Z) : string :=
  string_take (Z.to_nat maxLength) s.

(** [truncateText(text, maxLength)]; the default [maxLength] is 200. *)
Definition truncateText (text : JsValue) (maxLength : Z) : string :=
  if not_text text then EmptyString
  else match text with
       | JsString s =>
           if decide (Z.of_nat (String.length s) <= maxLength) then s
           else trim (substring_from_0 s maxLength) +:+ "..."
       | _ => EmptyString
       end.

Definition truncateText_default (text : JsValue) : string := truncateText text 200.

(** ASCII lower case, and a prefix test that ignores ASCII case: a regular
    expression [/^literal/i] on a lower-case literal. *)
Definition to_lower (c : ascii) : ascii :=
  let n := Ascii.N_of_ascii c in
  if decide (65 <= n <= 90)%N then Ascii.ascii_of_N (n + 32) else c.

Fixpoint starts_with_ci (literal s : string) : bool :=
  match literal, s with
  | EmptyString, _ => true
  | String a literal', String b s' =>
      if decide (a = to_lower b) then starts_with_ci literal' s' else false
  | String _ _, EmptyString => false
  end.

(** [/^https?:\/\//i] and [/^(javascript|data|vbscript):/i] *)
Definition matches_http (url : string) : bool :=
  starts_with_ci "http://" url || starts_with_ci "https://" url.

Definition matches_script (url : string) : bool :=
  starts_with_ci "javascript:" url || starts_with_ci "data:" url
  || starts_with_ci "vbscript:" url.

(** [sanitizeUrl(url)]. *)
Definition sanitizeUrl (url : JsValue) : string :=
  if not_text url then EmptyString
  else match url with
       | JsString s =>
           let url := trim s in
           if negb (matches_http url) then EmptyString
           else if matches_script url then EmptyString
           else url
       | _ => EmptyString
       end.

End Sanitize.

(** ** [js/bookshelf.js]: genre names and star ratings *)

Module Display.

Import Js EnvValidator.

Definition genreMap : list (string * string) :=
  [("action-adventure", "Action & Adventure");
   ("childrens", "Children's Books");
   ("fantasy", "Fantasy");
   ("historical-fiction", "Historical Fiction");
   ("horror", "Horror");
   ("literary-fiction", "Literary Fiction");
   ("mystery-crime", "Mystery & Crime");
   ("non-fiction", "Non-Fiction");
   ("poetry", "Poetry");
   ("romance", "Romance");
   ("science-fiction", "Science Fiction");
   ("self-help", "Self-Help");
   ("thriller-suspense", "Thriller & Suspense");
   ("young-adult", "Young Adult");
   ("other", "Other")].

(** [formatGenreName(slug)]: [genreMap[slug] || slug], own properties only. *)
Definition formatGenreName (slug : string) : string :=
  match env_get genreMap slug with
  | Some name => if decide (name = EmptyString) then slug else name
  | None => slug
  end.

(** [Math.floor] of a finite decimal [m * 10^e]. *)
Definition floor_decimal (m e : Z) : Z :=
  if decide (0 <= e) then m * 10 ^ e else m / 10 ^ (- e).

(** [rating % 1 >= 0.5] for a finite decimal: the remainder has the sign of
    the dividend, so the test fails on negative ratings. *)
Definition has_half (m e : Z) : bool :=
  if decide (0 <= e) then false
  else bool_decide (0 <= m ∧ 10 ^ (- e) <= 2 * (m `mod` 10 ^ (- e))).

(** [symbol.repeat(count)] for a count that is not negative. *)
Fixpoint repeat_string (symbol : string) (count : nat) : string :=
  match count with
  | O => EmptyString
  | S count' => symbol +:+ repeat_string symbol count'
  end.

Definition FULL_STAR : string := "★".
Definition HALF_STAR : string := "½".
Definition EMPTY_STAR : string := "☆".

(** [getStarRating(rating)]. [String.prototype.repeat] throws a
    [RangeError] on a negative or infinite count and takes [NaN] for 0. *)
Definition getStarRating (rating : number) : Outcome string :=
  match rating with
  | NaN => Returns EmptyString
  | Infinity _ => ThrowsError "RangeError: Invalid count value"
  | Finite m e =>
      let fullStars := floor_decimal m e in
      let hasHalfStar := has_half m e in
      let emptyStars := 5 - fullStars - (if hasHalfStar then 1 else 0) in
      if decide (fullStars < 0 ∨ emptyStars < 0) then
        ThrowsError "RangeError: Invalid count value"
      else
        Returns (repeat_string FULL_STAR (Z.to_nat fullStars) +:+
                 (if hasHalfStar then HALF_STAR else EmptyString) +:+
                 repeat_string EMPTY_STAR (Z.to_nat emptyStars))
  end.

(** The number of symbols of a rating line. *)
Definition stars (full : Z) (half : bool) (empty : Z) : string :=
  repeat_string FULL_STAR (Z.to_nat full) +:+
  (if half then HALF_STAR else EmptyString) +:+
  repeat_string EMPTY_STAR (Z.to_nat empty).

End Display.

(** ** The ingestion handler over a sequence of requests *)

Module Serving.

Import Js Security Errors Store.

(** The ways [TrackView.handler] answers a request in a state: the
    preflight, a method it does not allow, a call the limiter refuses, a
    payload it rejects, an insert that fails, an insert that succeeds, an
    exception. In all of them the response is the prepared one with a status
    and a body. *)
Inductive handled (req : Request) (env : Env) (w : World) : Response * World → Prop :=
  | handled_preflight :
      method req = "OPTIONS" →
      handled req env w (end_ (status 200 (TrackView.prepared req)), w)
  | handled_method :
      method req ≠ "OPTIONS" → method req ≠ "POST" →
      handled req env w
        (json (body_errors (methodNotAllowedError "POST"))
              (status 405 (TrackView.prepared req)), w)
  | handled_limited :
      method req = "POST" → allowed (TrackView.limiter req env w) = false →
      handled req env w
        (json (body_errors (rateLimitError 3600)) (status 429 (TrackView.prepared req)),
         TrackView.counted req env w)
  | handled_invalid message errors :
      method req = "POST" → allowed (TrackView.limiter req env w) = true →
      handled req env w
        (json (body_errors (validationError message errors))
              (status 400 (TrackView.prepared req)),
         TrackView.counted req env w)
  | handled_failed error :
      method req = "POST" → allowed (TrackView.limiter req env w) = true →
      insert_outcome env = InsertError error →
      handled req env w
        (json (TrackView.tracked_envelope false) (status 200 (TrackView.prepared req)),
         with_log (TrackView.counted req env w)
                  (logger_error "Failed to track view" (storage_error error)))
  | handled_tracked value :
      method req = "POST" → allowed (TrackView.limiter req env w) = true →
      insert_outcome env = InsertOk →
      get (body req) "book_id" = Normal value →
      is_missing value = false →
      le_zero (ToNumber value) = false →
      (isNaN (ToNumber value) = true → typeof value = "number") →
      handled req env w
        (json (TrackView.tracked_envelope true) (status 200 (TrackView.prepared req)),
         insert_view (TrackView.counted req env w)
                     (JsObject [("book_id", JsNumber (ToNumber value))]))
  | handled_thrown error :
      method req = "POST" → allowed (TrackView.limiter req env w) = true →
      get (body req) "book_id" = Throw error ∨ insert_outcome env = InsertThrows error →
      handled req env w
        (json (body_errors (internalError (bool_decide (NODE_ENV env = Some "development"))
                                          error))
              (status 500 (TrackView.prepared req)),
         with_log (TrackView.counted req env w)
                  (logger_error "Error tracking view" (caught error))).

(** The value [setCorsHeaders] gives [Access-Control-Allow-Origin]. *)
Definition allowed_origin (req : Request) : string :=
  match header (headers req) "origin" with
  | Some o =>
      if negb (bool_decide (o = EmptyString))
         && (includes o "authorkit.pro" || includes o "localhost"
             || match header (headers req) "user-agent" with
                | Some ua => includes ua "WordPress"
                | None => false
                end)
      then o else "*"
  | None => "*"
  end.

(** What [validateInput] writes into [sanitized] for a value it accepts. *)
Definition sanitized_as (rules : Rules) (value v : JsValue) : Prop :=
  if decide (type rules = Some "number") then v = JsNumber (ToNumber value)
  else match value with
       | JsString s => v = JsString (trim s)
       | _ => v = value
       end.

(** The row the ingestion handler inserts for a request it accepts:
    [{ book_id: Number(req.body.book_id) }]. *)
Definition view_row (req : Request) : JsValue :=
  JsObject [("book_id",
             JsNumber (ToNumber (match get (body req) "book_id" with
                                 | Normal value => value
                                 | Throw _ => JsUndefined
                                 end)))].

(** A request the handler has every reason to record: a POST whose
    [book_id] is a value on which [Number()] is computed exactly and is
    positive after it, in an environment where the insert succeeds. *)
Definition recordable (r : Request * Env) : Prop :=
  method r.1 = "POST" ∧ insert_outcome r.2 = InsertOk ∧
  ∃ value, get (body r.1) "book_id" = Normal value ∧
           Exact.Number_exact value = true ∧ gt_zero (ToNumber value) = true.

(** Every call the page has issued is the call for an identifier in
    [viewedBooks], and there are as many calls as identifiers. *)
Definition issued_viewed (page : Bookshelf.Page) : Prop :=
  Forall (λ f, ∃ id, f = Bookshelf.trackBookView id ∧ id ∈ Bookshelf.viewedBooks page)
         (Bookshelf.issued page) ∧
  length (Bookshelf.issued page) = size (Bookshelf.viewedBooks page).

(** The requests the calls of a page become, sent with the headers [hs]
    from the address [remote], each served in its own environment. *)
Definition requests_of (page : Bookshelf.Page) (hs : list (string * string))
    (remote : option string) (envs : list Env) : list (Request * Env) :=
  zip ((λ f, Bookshelf.request_of f hs remote) <$> Bookshelf.issued page) envs.

(** The process serves the requests one after the other, each in its own
    environment, with the state the previous one left. *)
Fixpoint serve (requests : list (Request * Env)) (w : World) : list Response * World :=
  match requests with
  | [] => ([], w)
  | (req, env) :: requests' =>
      let '(res, w) := TrackView.handler req env w in
      let '(responses, w) := serve requests' w in
      (res :: responses, w)
  end.

End Serving.

(** * Properties *)

Import Js Security Errors Store.

(** ** The built-ins on sample values *)

Example StringToNumber_samples :
  StringToNumber <$> ["42"; " 4.20e1 "; "-5"; "0x1F"; ""; "1.5"; "1e3"; "abc"; "12px"; "-Infinity"]
  = [of_Z 42; of_Z 42; of_Z (-5); of_Z 31; of_Z 0; Finite 15 (-1); of_Z 1000; NaN; NaN;
     Infinity true].
Proof. vm_compute. reflexivity. Qed.

Example NumberToString_samples :
  NumberToString <$> [of_Z 42; Finite 15 (-1); Finite (-1234) (-2); Finite 1 (-7);
                      of_Z 1000000000000000000000; NaN]
  = ["42"; "1.5"; "-12.34"; "1e-7"; "1e+21"; "NaN"].
Proof. vm_compute. reflexivity. Qed.

Example ToNumber_samples :
  ToNumber <$> [JsUndefined; JsNull; JsBoolean true; JsString "42"; JsArray [];
                JsArray [JsString "7"]; JsArray [JsNumber (of_Z 1); JsNumber (of_Z 2)];
                JsObject []]
  = [NaN; of_Z 0; of_Z 1; of_Z 42; of_Z 0; of_Z 7; NaN; NaN].
Proof. vm_compute. reflexivity. Qed.

Example parseInt_samples :
  parseInt <$> [JsString "42abc"; JsString " -0x1f"; JsNumber (Finite 15 (-1));
                JsString "abc"; JsBoolean true]
  = [of_Z 42; of_Z (-31); of_Z 1; NaN; NaN].
Proof. vm_compute. reflexivity. Qed.

Example getClientIp_samples :
  getClientIp (mkRequest "POST" [("x-forwarded-for", "203.0.113.7, 10.0.0.1")] None [] JsNull)
    = "203.0.113.7" ∧
  getClientIp (mkRequest "POST" [("x-real-ip", "198.51.100.4")] (Some "10.0.0.1") [] JsNull)
    = "198.51.100.4" ∧
  getClientIp (mkRequest "POST" [] None [] JsNull) = "unknown".
Proof. vm_compute. repeat split. Qed.

(** ** The rate-limit store as a map *)

Section MapFacts.

Implicit Types (m : RateLimitStore) (k key : string) (v : Z).

Lemma Map_get_None m key : Map_get m key = None ↔ key ∉ Map_keys m.
Proof.
  unfold Map_keys. induction m as [|[k v] m IH]; simpl.
  - split; [intros _; apply not_elem_of_nil | done].
  - rewrite not_elem_of_cons. destruct (decide (k = key)) as [->|Hne].
    + split; [done | intros [? _]; done].
    + rewrite IH. split; [intros ?; split; [congruence | done] | intros [_ ?]; done].
Qed.

Lemma Map_get_set_eq m key v : Map_get (Map_set m key v) key = Some v.
Proof.
  induction m as [|[k v'] m IH]; simpl; repeat (case_decide; simpl); congruence.
Qed.

Lemma Map_get_set_ne m key k v : key ≠ k → Map_get (Map_set m key v) k = Map_get m k.
Proof.
  intros Hne. induction m as [|[k' v'] m IH]; simpl;
    repeat (case_decide; simpl); congruence.
Qed.

Lemma Map_set_fresh m key v : Map_get m key = None → Map_set m key v = m ++ [(key, v)].
Proof.
  induction m as [|[k v'] m IH]; simpl; [done|].
  destruct (decide (k = key)); [done|]. intros H. by rewrite IH.
Qed.

Lemma Map_set_present m key v :
  is_Some (Map_get m key) →
  Map_keys (Map_set m key v) = Map_keys m ∧ length (Map_set m key v) = length m.
Proof.
  unfold Map_keys. induction m as [|[k v'] m IH]; intros H.
  - destruct H; done.
  - cbn [Map_set Map_get] in *. destruct (decide (k = key)); [done|].
    destruct (IH H) as [E1 E2]. rewrite !fmap_cons, E1. simpl. by rewrite E2.
Qed.

Lemma Map_get_delete_eq m key : Map_get (Map_delete m key) key = None.
Proof.
  induction m as [|[k v] m IH]; simpl; [done|].
  repeat (case_decide; simpl); congruence.
Qed.

Lemma Map_delete_absent m key : key ∉ Map_keys m → Map_delete m key = m.
Proof.
  unfold Map_keys. induction m as [|[k v] m IH]; simpl; [done|].
  rewrite not_elem_of_cons. intros [Hne Hnin].
  case_decide; [congruence|]. by rewrite IH.
Qed.

(** Deleting the first key of a map without duplicate keys drops its first
    entry and nothing else. *)
Lemma Map_delete_first k v m :
  NoDup (Map_keys ((k, v) :: m)) → Map_delete ((k, v) :: m) k = m.
Proof.
  unfold Map_keys. simpl. rewrite NoDup_cons. intros [Hnin _].
  case_decide; [|congruence]. by apply Map_delete_absent.
Qed.

End MapFacts.

(** ** One call of the limiter *)

Section RateLimitStep.

Implicit Types (s : RateLimitStore) (c : Call) (k : string).

Lemma requestCount_count_of s k :
  match Map_get s k with
  | Some n => if decide (n = 0) then 0 else n
  | None => 0
  end = count_of s k.
Proof. unfold count_of. destruct (Map_get s k); simpl; [case_decide; lia | done]. Qed.

Lemma step_unfold s c :
  step s c = cleanup (Map_set s (call_key c) (count_of s (call_key c) + 1)).
Proof.
  unfold step, rateLimit, call_key. simpl. by rewrite requestCount_count_of.
Qed.

Lemma rateLimit_result now identifier maxRequests windowMs s :
  let count := count_of s (rateLimitKey identifier now windowMs) + 1 in
  (rateLimit now identifier maxRequests windowMs s).1 =
    {| allowed := bool_decide (count <= maxRequests);
       retryAfter := if bool_decide (count <= maxRequests) then 0
                     else Math_ceil_div windowMs 1000;
       remaining := Z.max 0 (maxRequests - count) |}.
Proof. unfold rateLimit. simpl. by rewrite requestCount_count_of. Qed.

(** The three ways a call changes a well-formed store: it counts in place,
    it appends a new key, or it appends a new key and drops the oldest. *)
Lemma step_cases s c :
  store_ok s →
  let key := call_key c in
  (is_Some (Map_get s key) ∧ step s c = Map_set s key (count_of s key + 1)) ∨
  (Map_get s key = None ∧ Map_size s < MAX_ENTRIES ∧ step s c = s ++ [(key, 1)]) ∨
  (Map_get s key = None ∧ Map_size s = MAX_ENTRIES ∧
   ∃ k0 v0 rest, s = (k0, v0) :: rest ∧ step s c = rest ++ [(key, 1)]).
Proof.
  intros [Hnd Hsz] key. rewrite step_unfold. fold key.
  destruct (Map_get s key) as [n|] eqn:Hget.
  - left. split; [by eexists|].
    destruct (Map_set_present s key (count_of s key + 1)) as [_ Hlen]; [by eexists|].
    unfold cleanup, Map_size in *. rewrite Hlen. case_decide; [lia | done].
  - right. unfold count_of. rewrite Hget. simpl.
    rewrite (Map_set_fresh _ _ _ Hget).
    unfold cleanup, Map_size in *. rewrite length_app. simpl.
    destruct (decide (Z.of_nat (length s) < MAX_ENTRIES)) as [Hlt|Hge].
    + left. split; [done|]. split; [done|]. case_decide; [lia | done].
    + right. split; [done|]. split; [lia|].
      destruct s as [|[k0 v0] rest]; [unfold MAX_ENTRIES in *; simpl in *; lia|].
      exists k0, v0, rest. split; [done|].
      case_decide; [|lia]. simpl Map_first_key.
      change (((k0, v0) :: rest) ++ [(key, 1)]) with ((k0, v0) :: (rest ++ [(key, 1)])).
      apply Map_delete_first. unfold Map_keys in *.
      rewrite fmap_cons, fmap_app. simpl.
      apply Map_get_None in Hget. unfold Map_keys in Hget.
      rewrite fmap_cons in Hnd, Hget. simpl in Hnd, Hget.
      apply NoDup_cons in Hnd as [Hk0 Hrest].
      apply not_elem_of_cons in Hget as [Hne Hkey].
      apply NoDup_cons. split.
      * rewrite elem_of_app, list_elem_of_singleton. intros [?|?]; congruence.
      * apply NoDup_app. split; [done|]. split; [|apply NoDup_singleton].
        intros x Hx. rewrite list_elem_of_singleton. intros ->. done.
Qed.

Lemma step_ok s c : store_ok s → store_ok (step s c).
Proof.
  intros Hok. pose proof Hok as [Hnd Hsz].
  destruct (step_cases s c Hok) as [[Hsome ->]|[(Hnone & Hlt & ->)|(Hnone & Heq & k0 & v0 & rest & -> & ->)]].
  - destruct (Map_set_present s (call_key c) (count_of s (call_key c) + 1) Hsome) as [Hk Hl].
    unfold store_ok, Map_size in *. by rewrite Hk, Hl.
  - unfold store_ok, Map_size, Map_keys in *. rewrite fmap_app, length_app. simpl.
    split; [|lia]. apply NoDup_app. split; [done|]. split; [|apply NoDup_singleton].
    intros x Hx. rewrite list_elem_of_singleton. intros ->.
    by apply Map_get_None in Hnone.
  - apply Map_get_None in Hnone.
    unfold store_ok, Map_size, Map_keys in *. rewrite fmap_app, length_app.
    rewrite fmap_cons in Hnd, Hnone. simpl in *.
    apply NoDup_cons in Hnd as [Hk0 Hrest].
    apply not_elem_of_cons in Hnone as [Hne Hkey].
    split; [|lia]. apply NoDup_app. split; [done|]. split; [|apply NoDup_singleton].
    intros x Hx. rewrite list_elem_of_singleton. intros ->. done.
Qed.

Lemma run_ok calls s : store_ok s → store_ok (run calls s).
Proof.
  revert s. induction calls as [|c calls IH]; intros s Hok; simpl; [done|].
  apply IH. by apply step_ok.
Qed.

Lemma empty_ok : store_ok [].
Proof. split; [apply NoDup_nil_2 | unfold Map_size, MAX_ENTRIES; simpl; lia]. Qed.

Lemma Map_get_app_singleton s k key v :
  Map_get s key = None →
  Map_get (s ++ [(key, v)]) k = if decide (key = k) then Some v else Map_get s k.
Proof.
  intros Hnone. rewrite <- (Map_set_fresh _ _ v Hnone).
  case_decide as Hk; [subst; apply Map_get_set_eq | by apply Map_get_set_ne].
Qed.

(** After a call the store holds, for the key of the call, the count it
    held before plus one. *)
Lemma step_get_key s c :
  store_ok s → Map_get (step s c) (call_key c) = Some (count_of s (call_key c) + 1).
Proof.
  intros Hok.
  destruct (step_cases s c Hok) as [[Hsome ->]|[(Hnone & Hlt & ->)|(Hnone & Heq & k0 & v0 & rest & Hs & ->)]].
  - apply Map_get_set_eq.
  - rewrite Map_get_app_singleton by done. rewrite decide_True by done.
    unfold count_of. by rewrite Hnone.
  - subst s. simpl in Hnone. case_decide as Hk0; [done|].
    rewrite Map_get_app_singleton by done. rewrite decide_True by done.
    unfold count_of. simpl. rewrite decide_False by done. by rewrite Hnone.
Qed.

(** A call leaves the count of every other key as it was, unless it evicts
    that key. *)
Lemma step_get_other s c k :
  store_ok s → k ≠ call_key c →
  Map_get (step s c) k = Map_get s k ∨ (evicts s c k ∧ Map_get (step s c) k = None).
Proof.
  intros Hok Hne. pose proof Hok as [Hnd Hsz].
  destruct (step_cases s c Hok) as [[Hsome ->]|[(Hnone & Hlt & ->)|(Hnone & Heq & k0 & v0 & rest & Hs & ->)]].
  - left. by apply Map_get_set_ne.
  - left. rewrite Map_get_app_singleton by done. by rewrite decide_False.
  - subst s. destruct (decide (k0 = k)) as [->|Hk0].
    + right. split; [done|].
      simpl in Hnone. case_decide; [done|].
      rewrite Map_get_app_singleton by done. rewrite decide_False by done.
      apply Map_get_None. unfold Map_keys in *. rewrite fmap_cons in Hnd.
      by apply NoDup_cons in Hnd as [? _].
    + left. simpl in Hnone. case_decide; [done|].
      rewrite Map_get_app_singleton by done. rewrite decide_False by done.
      simpl. by rewrite decide_False.
Qed.

End RateLimitStep.

(** ** Sequences of calls *)

Section RateLimitRuns.

Implicit Types (s : RateLimitStore) (c : Call) (k : string).

Lemma run_app calls1 calls2 s : run (calls1 ++ calls2) s = run calls2 (run calls1 s).
Proof. apply foldl_app. Qed.

Lemma run_snoc calls c s : run (calls ++ [c]) s = step (run calls s) c.
Proof. by rewrite run_app. Qed.

(** Calls with new, pairwise distinct keys are appended in order as long as
    the store has room. *)
Lemma run_fresh calls s :
  store_ok s →
  NoDup (Map_keys s ++ (call_key <$> calls)) →
  Map_size s + Z.of_nat (length calls) <= MAX_ENTRIES →
  run calls s = s ++ ((λ c, (call_key c, 1)) <$> calls).
Proof.
  revert s. induction calls as [|c calls IH]; intros s Hok Hnd Hsz.
  - simpl. by rewrite app_nil_r.
  - simpl run. rewrite fmap_cons in Hnd. simpl length in Hsz.
    assert (Map_get s (call_key c) = None) as Hnone.
    { apply Map_get_None. apply NoDup_app in Hnd as (_ & Hdisj & _).
      intros Hin. apply (Hdisj _ Hin). apply list_elem_of_here. }
    destruct (step_cases s c Hok) as [[[? Hsome] _]|[(_ & _ & Hstep)|(_ & Heq & _)]];
      [congruence | | lia].
    rewrite IH.
    + rewrite Hstep, fmap_cons. by rewrite <- app_assoc.
    + by apply step_ok.
    + rewrite Hstep. unfold Map_keys in *. rewrite fmap_app. simpl.
      by rewrite <- app_assoc.
    + rewrite Hstep. unfold Map_size in *. rewrite length_app. simpl. lia.
Qed.

Lemma string_length_app (s t : string) :
  String.length (s +:+ t) = (String.length s + String.length t)%nat.
Proof.
  induction s as [|a s IH]; [done|].
  change (S (String.length (s +:+ t)) = S (String.length s + String.length t)).
  by rewrite IH.
Qed.

Lemma string_app_inj_r (s1 s2 t : string) : s1 +:+ t = s2 +:+ t → s1 = s2.
Proof.
  revert s2. induction s1 as [|a1 s1 IH]; intros [|a2 s2] H.
  - done.
  - apply (f_equal String.length) in H.
    change (String.length t = S (String.length (s2 +:+ t))) in H.
    rewrite string_length_app in H. lia.
  - apply (f_equal String.length) in H.
    change (S (String.length (s1 +:+ t)) = String.length t) in H.
    rewrite string_length_app in H. lia.
  - change (String a1 (s1 +:+ t) = String a2 (s2 +:+ t)) in H.
    injection H as -> H. f_equal. by apply IH.
Qed.

Lemma other_key_inj i j : call_key (other i) = call_key (other j) → i = j.
Proof.
  unfold call_key, other, rateLimitKey. simpl call_identifier.
  intros H. apply string_app_inj_r in H.
  apply (inj (String.append "198.51.100.")) in H.
  apply (inj pretty) in H. lia.
Qed.

Lemma victim_key_other i : call_key victim ≠ call_key (other i).
Proof.
  unfold call_key, other, victim, rateLimitKey. simpl call_identifier.
  intros H. apply string_app_inj_r in H.
  change ("203.0.113.7" = String "1" ("98.51.100." +:+ pretty (Z.of_nat i))) in H.
  discriminate H.
Qed.

Lemma flood_keys_NoDup n : NoDup (call_key victim :: (call_key <$> flood n)).
Proof.
  apply NoDup_cons. split.
  - unfold flood. rewrite <- list_fmap_compose.
    intros (i & Hi & _)%list_elem_of_fmap. by apply victim_key_other in Hi.
  - unfold flood. rewrite <- list_fmap_compose.
    apply NoDup_fmap_2_strong; [|apply NoDup_seq].
    intros i j _ _ H. by apply other_key_inj.
Qed.

Lemma victim_twice : run [victim; victim] [] = [(call_key victim, 2)].
Proof. vm_compute. reflexivity. Qed.

Lemma flood_fills n :
  1 + Z.of_nat n <= MAX_ENTRIES →
  run ([victim; victim] ++ flood n) [] =
    (call_key victim, 2) :: ((λ c, (call_key c, 1)) <$> flood n).
Proof.
  intros Hn. rewrite run_app, victim_twice.
  rewrite run_fresh; [done | | |].
  - rewrite <- victim_twice. apply run_ok, empty_ok.
  - apply flood_keys_NoDup.
  - unfold Map_size, flood. simpl length. rewrite length_fmap, length_seq. lia.
Qed.

(** When the flood reaches the threshold, the first entry, the victim's, is
    the one evicted. *)
Lemma flood_evicts_victim n :
  Z.of_nat n = MAX_ENTRIES →
  Map_get (run ([victim; victim] ++ flood n) []) (call_key victim) = None.
Proof.
  intros Hn. destruct n as [|n]; [unfold MAX_ENTRIES in Hn; lia|].
  assert (flood (S n) = flood n ++ [other n]) as Hflood.
  { unfold flood. by rewrite seq_S, fmap_app. }
  pose proof (flood_keys_NoDup (S n)) as Hnd.
  rewrite Hflood, fmap_app in Hnd. rewrite Hflood, app_assoc, run_snoc.
  change (call_key <$> [other n]) with [call_key (other n)] in Hnd.
  assert (store_ok (run ([victim; victim] ++ flood n) [])) as Hok
    by apply run_ok, empty_ok.
  destruct (step_cases _ (other n) Hok)
    as [[[v Hsome] _]|[(_ & Hlt & _)|(Hnone & _ & k0 & v0 & rest & Hs & ->)]].
  - rewrite flood_fills in Hsome by lia.
    assert (Map_get ((call_key victim, 2) :: ((λ c, (call_key c, 1)) <$> flood n))
                    (call_key (other n)) = None) as Habs; [|congruence].
    apply Map_get_None. unfold Map_keys. rewrite fmap_cons, <- list_fmap_compose.
    simpl. intros Hin. apply NoDup_cons in Hnd as [Hv Hnd].
    apply not_elem_of_app in Hv as [_ Hv].
    apply elem_of_cons in Hin as [Heq|Hin].
    + apply Hv. rewrite Heq. apply list_elem_of_here.
    + apply NoDup_app in Hnd as (_ & Hdisj & _).
      apply (Hdisj _ Hin). apply list_elem_of_here.
  - rewrite flood_fills in Hlt by lia. unfold Map_size in Hlt. simpl in Hlt.
    rewrite length_fmap in Hlt. unfold flood in Hlt.
    rewrite length_fmap, length_seq in Hlt. lia.
  - rewrite flood_fills in Hs by lia. injection Hs as <- <- <-.
    apply Map_get_None. unfold Map_keys. rewrite fmap_app, <- list_fmap_compose.
    simpl. apply NoDup_cons in Hnd as [Hv _]. exact Hv.
Qed.

End RateLimitRuns.

(** ** The limiter: quota, bounded store, counts *)






(** C8. The store of the limiter is bounded by the threshold of 10,000
    entries: after any sequence of calls from the empty store it holds at most
    10,000 entries; and a call either stays within the threshold without
    evicting, or its insertion makes 10,001 entries and exactly one entry that
    was there before the call, the first of the store, is removed, leaving
    10,000. *)
Theorem rateLimit_store_bounded :
  MAX_ENTRIES = 10000 ∧
  (∀ calls : list Call, Map_size (run calls []) <= MAX_ENTRIES) ∧
  (∀ (calls : list Call) (c : Call),
     let before := run calls [] in
     let inserted := Map_set before (call_key c) (count_of before (call_key c) + 1) in
     (Map_size inserted <= MAX_ENTRIES ∧ step before c = inserted) ∨
     (Map_size inserted = MAX_ENTRIES + 1 ∧
      Map_size (step before c) = MAX_ENTRIES ∧
      ∃ evicted, evicted ∈ before ∧ inserted = evicted :: step before c)).
Proof.
  split; [done|]. split.
  - intros calls. apply (run_ok calls [] empty_ok).
  - intros calls c before inserted.
    pose proof (run_ok calls [] empty_ok) as Hok. fold before in Hok.
    clearbody before. subst inserted. pose proof Hok as [Hnd Hsz].
    destruct (step_cases before c Hok)
      as [[Hsome Hstep]|[(Hnone & Hlt & Hstep)|(Hnone & Heq & k0 & v0 & rest & Hs & Hstep)]].
    + left. split; [|done].
      destruct (Map_set_present before (call_key c) (count_of before (call_key c) + 1) Hsome)
        as [_ Hlen].
      unfold Map_size in *. by rewrite Hlen.
    + left. rewrite (Map_set_fresh _ _ _ Hnone).
      unfold count_of. rewrite Hnone. split; [|done].
      unfold Map_size in *. rewrite length_app. simpl. lia.
    + right. rewrite (Map_set_fresh _ _ _ Hnone), Hstep.
      unfold count_of. rewrite Hnone. subst before.
      unfold Map_size in *. rewrite !length_app. cbn [length default] in *.
      split; [lia|]. split; [lia|].
      exists (k0, v0). split; [apply list_elem_of_here | done].
Qed.

(** C9 as stated fails: within one window, a client's count of 2 is back to
    0 after 10,000 other clients have called once each, the last of these
    calls evicting the client's entry; the client's third call in the window
    is then counted as its first. *)
Lemma count_reset_by_eviction :
  let before := [victim; victim] in
  let after := [victim; victim] ++ flood (Z.to_nat MAX_ENTRIES) in
  Forall (λ c, Math_floor_div (call_now c) (call_windowMs c) = 0) (after ++ [victim]) ∧
  count_of (run before []) (call_key victim) = 2 ∧
  count_of (run after []) (call_key victim) = 0 ∧
  count_of (run after []) (call_key victim) < count_of (run before []) (call_key victim) ∧
  count_of (run (after ++ [victim]) []) (call_key victim) = 1.
Proof.
  intros before after.
  assert (count_of (run before []) (call_key victim) = 2) as Hbefore.
  { unfold before. rewrite victim_twice. vm_compute. reflexivity. }
  assert (count_of (run after []) (call_key victim) = 0) as Hafter.
  { unfold count_of, after. rewrite flood_evicts_victim; [done|].
    apply Z2Nat.id. unfold MAX_ENTRIES. lia. }
  split; [|split; [done|split; [done|split; [lia|]]]].
  - unfold after. rewrite !Forall_app. split; [split|].
    + repeat constructor.
    + unfold flood. apply Forall_fmap, Forall_forall. intros i _. reflexivity.
    + repeat constructor.
  - rewrite run_snoc. unfold count_of at 1.
    rewrite step_get_key by apply run_ok, empty_ok. rewrite Hafter. done.
Qed.

(** C9, amended. Over any sequence of calls from the empty store, the count
    held for a key does not decrease, unless one of the calls evicted the key:
    a call that inserted a new key into a store holding 10,000 entries of
    which this key was the oldest. *)
Theorem count_monotone_unless_evicted (calls1 calls2 : list Call) (key : string) :
  count_of (run calls1 []) key <= count_of (run (calls1 ++ calls2) []) key ∨
  ∃ a c b, calls2 = a ++ c :: b ∧ evicts (run (calls1 ++ a) []) c key.
Proof.
  induction calls2 as [|c calls2 IH] using rev_ind.
  - left. rewrite app_nil_r. lia.
  - destruct IH as [IH|(a & c' & b & -> & Hev)].
    + pose proof (run_ok (calls1 ++ calls2) [] empty_ok) as Hok.
      rewrite app_assoc, run_snoc.
      destruct (decide (key = call_key c)) as [->|Hne].
      * left. unfold count_of at 2. rewrite step_get_key by done. simpl. lia.
      * destruct (step_get_other _ c key Hok Hne) as [Heq|[Hev _]].
        -- left. unfold count_of at 2. rewrite Heq. exact IH.
        -- right. exists calls2, c, []. done.
    + right. exists a, c', (b ++ [c]). split; [|done].
      by rewrite <- app_assoc.
Qed.

(** ** [validateInput] *)

Section ValidateInput.

Implicit Types (data value : JsValue) (schema : Schema) (rules : Rules).







(** [validateInput] on the schema of the ingestion handler. *)
Lemma validateInput_book_id body value :
  get body "book_id" = Normal value →
  validateInput body TrackView.schema =
    Normal (if is_missing value then
              mkValidationResult false ["book_id is required"] []
            else if negb (bool_decide (typeof value = "number")) && isNaN (ToNumber value) then
              mkValidationResult false ["book_id must be a number"] []
            else
              mkValidationResult true [] [("book_id", JsNumber (ToNumber value))]).
Proof.
  intros Hget. unfold validateInput, TrackView.schema.
  cbn [validate_fields validate_field required type]. rewrite Hget. cbn [bind].
  destruct (is_missing value); [done|]. cbn [andb negb].
  rewrite decide_False by done. rewrite decide_True by done.
  by destruct (negb (bool_decide (typeof value = "number")) && isNaN (ToNumber value)).
Qed.

(** A body that is there, whatever its type, can be asked for a property. *)
Lemma get_Normal body field :
  body ≠ JsUndefined → body ≠ JsNull → ∃ value, get body field = Normal value.
Proof. intros H1 H2. destruct body; try done; eexists; reflexivity. Qed.

End ValidateInput.

(** ** The ingestion handler *)

Section TrackViewHandler.

Import TrackView.

Implicit Types (req : Request) (env : Env) (w : World) (value : JsValue).

(** The handler on a POST request: the limiter counts the request, then
    either refuses it or lets the [try] block run. *)
Lemma handler_post req env w :
  method req = "POST" →
  handler req env w =
    if negb (allowed (limiter req env w)) then
      (json (body_errors (rateLimitError (retryAfter (limiter req env w))))
            (status HTTP_STATUS.TOO_MANY_REQUESTS (prepared req)),
       counted req env w)
    else
      match try_block req env (counted req env w) (prepared req) with
      | Normal result => result
      | Throw error => catch_block error env (counted req env w) (prepared req)
      end.
Proof.
  intros Hm. unfold handler, limiter, counted, prepared. rewrite Hm.
  rewrite decide_False by done. rewrite decide_False by (intros H; by apply H).
  by destruct (rateLimit (Date_now env) (getClientIp req) 100 3600000 (rateLimitStore w)).
Qed.

Lemma handler_not_post req env w :
  method req ≠ "POST" →
  handler req env w =
    if decide (method req = "OPTIONS") then (end_ (status 200 (prepared req)), w)
    else (json (body_errors (methodNotAllowedError "POST"))
               (status HTTP_STATUS.METHOD_NOT_ALLOWED (prepared req)), w).
Proof.
  intros Hm. unfold handler, prepared. case_decide; [done|]. by rewrite decide_True.
Qed.

(** A POST request that the limiter refuses is answered 429 with the
    rate-limit error and the delay of one window, 3600 seconds. *)
Lemma handler_rate_limited req env w :
  method req = "POST" →
  allowed (limiter req env w) = false →
  responds (handler req env w) 429 (body_errors (rateLimitError 3600)) (counted req env w).
Proof.
  intros Hm Hrefused. rewrite handler_post by done. rewrite Hrefused. cbn [negb].
  unfold limiter in *. pose proof (rateLimit_result (Date_now env) (getClientIp req)
                                     100 3600000 (rateLimitStore w)) as Hres.
  cbv zeta in Hres. rewrite Hres in Hrefused |- *. cbn [allowed retryAfter] in *.
  rewrite Hrefused. done.
Qed.

(** The [try] block, by cases on the value of [book_id]. *)
Lemma try_block_value req env w res value :
  get (body req) "book_id" = Normal value →
  try_block req env w res =
    if is_missing value then
      Normal (json (body_errors (validationError "Validation failed"
                                   (Some ["book_id is required"])))
                   (status HTTP_STATUS.BAD_REQUEST res), w)
    else if negb (bool_decide (typeof value = "number")) && isNaN (ToNumber value) then
      Normal (json (body_errors (validationError "Validation failed"
                                   (Some ["book_id must be a number"])))
                   (status HTTP_STATUS.BAD_REQUEST res), w)
    else if le_zero (ToNumber value) then
      Normal (json (body_errors (validationError "book_id must be a positive number" None))
                   (status HTTP_STATUS.BAD_REQUEST res), w)
    else
      match insert_outcome env with
      | InsertThrows e => Throw e
      | InsertError error =>
          Normal (json (tracked_envelope false) (status HTTP_STATUS.OK res),
                  with_log w (logger_error "Failed to track view" (storage_error error)))
      | InsertOk =>
          Normal (json (tracked_envelope true) (status HTTP_STATUS.OK res),
                  insert_view w (JsObject [("book_id", JsNumber (ToNumber value))]))
      end.
Proof.
  intros Hget. unfold try_block. rewrite (validateInput_book_id _ _ Hget).
  destruct (is_missing value); [done|].
  destruct (negb (bool_decide (typeof value = "number")) && isNaN (ToNumber value)); [done|].
  cbn [bind isValid negb data lookup_property]. rewrite decide_True by done.
  cbn [ToNumber]. done.
Qed.

Lemma gt_zero_spec (n : number) :
  gt_zero n = true ↔ isNaN n = false ∧ le_zero n = false.
Proof.
  destruct n as [|[]|m e]; cbn; try (split; [intros ?|intros [? ?]]; done).
  rewrite bool_decide_eq_true, bool_decide_eq_false. split; [intros ?; split; [done|lia] | intros [_ ?]; lia].
Qed.

Lemma gt_zero_not_missing value : gt_zero (ToNumber value) = true → is_missing value = false.
Proof.
  destruct value as [| | | |s| |]; try done.
  cbn [is_missing]. destruct s; [|done]. vm_compute. done.
Qed.

End TrackViewHandler.

(** ** Validation in the ingestion handler *)




(** ** Storage failures and exceptions in the ingestion handler *)



Lemma legacy_handler_post req env w :
  method req = "POST" →
  TrackViewLegacy.handler req env w =
    match TrackViewLegacy.try_block req env w new_response with
    | Normal result => result
    | Throw error => TrackViewLegacy.catch_block error w new_response
    end.
Proof.
  intros Hm. unfold TrackViewLegacy.handler. by rewrite decide_False by (intros H; by apply H).
Qed.

(** C1 as stated fails for the rate-limited handler: a POST without a body
    makes [validateInput] throw, and an insert that throws on a valid
    [book_id] does the same; both are answered 500 with the [internalError]
    envelope, not 200 with [{success: true, tracked: false}]. *)
Lemma exception_answered_with_internal_error :
  let no_body := request_from "POST" "203.0.113.7" JsUndefined in
  let valid := request_from "POST" "203.0.113.7" (JsObject [("book_id", JsNumber (of_Z 123))]) in
  let failing := mkEnv 1700000000000 (Some "production") (InsertThrows (Rejected "fetch failed")) in
  TrackView.try_block no_body quiet (TrackView.counted no_body quiet new_world)
                      (TrackView.prepared no_body)
    = Throw (TypeError "Cannot read properties of undefined") ∧
  statusCode (TrackView.handler no_body quiet new_world).1 = 500 ∧
  responseBody (TrackView.handler no_body quiet new_world).1
    = body_errors (internalError false (TypeError "Cannot read properties of undefined")) ∧
  TrackView.try_block valid failing (TrackView.counted valid failing new_world)
                      (TrackView.prepared valid)
    = Throw (Rejected "fetch failed") ∧
  statusCode (TrackView.handler valid failing new_world).1 = 500 ∧
  responseBody (TrackView.handler valid failing new_world).1
    = body_errors (internalError false (Rejected "fetch failed")) ∧
  500 ≠ 200 ∧
  (∀ isDevelopment error,
     body_errors (internalError isDevelopment error) ≠ TrackView.tracked_envelope false).
Proof.
  intros no_body valid failing.
  repeat split; try (vm_compute; reflexivity); discriminate.
Qed.

(** C1, amended. When the [try] block of the rate-limited handler throws,
    its [catch] clause logs the exception and answers with
    [HTTP_STATUS.INTERNAL_ERROR] (500) and the [internalError] envelope; when
    the [try] block of the second handler of the file throws, that handler
    logs the exception and answers 200 with [{success: true, tracked: false}].
    In both handlers the block throws on a request without a body. *)
Theorem exception_in_try_block (req : Request) (env : Env) (w : World) (error : Exception) :
  method req = "POST" →
  (allowed (TrackView.limiter req env w) = true →
   TrackView.try_block req env (TrackView.counted req env w) (TrackView.prepared req)
     = Throw error →
   responds (TrackView.handler req env w) 500
     (body_errors (internalError (bool_decide (NODE_ENV env = Some "development")) error))
     (with_log (TrackView.counted req env w)
        (logger_error "Error tracking view" (caught error)))) ∧
  (TrackViewLegacy.try_block req env w new_response = Throw error →
   responds (TrackViewLegacy.handler req env w) 200
     (body_json (JsObject [("success", JsBoolean true); ("tracked", JsBoolean false)]))
     (with_log w (console_error "Error tracking view:" (caught error)))) ∧
  (body req = JsUndefined ∨ body req = JsNull →
   (∃ e, TrackView.try_block req env (TrackView.counted req env w) (TrackView.prepared req)
           = Throw e) ∧
   (∃ e, TrackViewLegacy.try_block req env w new_response = Throw e)).
Proof.
  intros Hm. split; [|split].
  - intros Hallowed Hthrow. rewrite handler_post by done.
    rewrite Hallowed. cbn [negb]. rewrite Hthrow. done.
  - intros Hthrow. rewrite legacy_handler_post by done. rewrite Hthrow. done.
  - intros Hbody. unfold TrackView.try_block, TrackViewLegacy.try_block.
    destruct Hbody as [-> | ->]; split; eexists; reflexivity.
Qed.

(** A POST without a body, given to each of the two handlers. *)
Lemma exception_in_try_block_witness :
  let req := request_from "POST" "203.0.113.7" JsUndefined in
  let error := TypeError "Cannot read properties of undefined" in
  responds (TrackView.handler req quiet new_world) 500
    (body_errors (internalError false error))
    (with_log (TrackView.counted req quiet new_world)
       (logger_error "Error tracking view" (caught error))) ∧
  responds (TrackViewLegacy.handler req quiet new_world) 200
    (body_json (JsObject [("success", JsBoolean true); ("tracked", JsBoolean false)]))
    (with_log new_world (console_error "Error tracking view:" (caught error))).
Proof.
  intros req error.
  assert (allowed (TrackView.limiter req quiet new_world) = true) as Hallowed
    by (vm_compute; reflexivity).
  destruct (exception_in_try_block req quiet new_world error eq_refl) as (Hnew & Hold & _).
  split; [apply (Hnew Hallowed eq_refl) | apply (Hold eq_refl)].
Defined.

(** ** Methods *)

(** C6 as stated fails: the ingestion handler answers an OPTIONS request,
    whose method is not POST, with 200 and an empty body, not with 405. *)
Lemma options_answered_200 :
  let req := request_from "OPTIONS" "203.0.113.7" JsUndefined in
  method req ≠ "POST" ∧
  responds (TrackView.handler req quiet new_world) 200 body_end new_world ∧
  statusCode (TrackView.handler req quiet new_world).1 ≠ 405.
Proof.
  intros req. split; [discriminate|]. split; [|discriminate].
  vm_compute. repeat split.
Qed.

(** C6, amended. A request whose method is not POST changes nothing in the
    state of the ingestion handler (no counter of the limiter, no row, no log
    entry); it is answered 200 with an empty body when the method is OPTIONS
    and 405 with the method-not-allowed error otherwise. The catalog handler
    answers every request whose method is not GET with 405 and changes
    nothing, as the second ingestion handler of the file does with every
    request whose method is not POST. *)
Theorem method_not_allowed (req : Request) (env : Env) (w : World) :
  (method req ≠ "POST" →
   (method req = "OPTIONS" → responds (TrackView.handler req env w) 200 body_end w) ∧
   (method req ≠ "OPTIONS" →
    responds (TrackView.handler req env w) 405
      (body_errors (methodNotAllowedError "POST")) w)) ∧
  (method req ≠ "GET" →
   responds (Books.handler req w) 405
     (body_json (JsObject [("success", JsBoolean false);
                           ("error", JsString "Method not allowed. Use GET.")])) w) ∧
  (method req ≠ "POST" →
   responds (TrackViewLegacy.handler req env w) 405
     (body_json (JsObject [("success", JsBoolean false);
                           ("error", JsString "Method not allowed. Use POST.")])) w).
Proof.
  split; [|split].
  - intros Hm. rewrite handler_not_post by done. split; intros Ho.
    + by rewrite decide_True.
    + by rewrite decide_False.
  - intros Hm. unfold Books.handler. by rewrite decide_True.
  - intros Hm. unfold TrackViewLegacy.handler. by rewrite decide_True.
Qed.

(** OPTIONS and GET to the ingestion handler, POST to the catalog. *)
Lemma method_not_allowed_witness :
  responds (TrackView.handler (request_from "OPTIONS" "203.0.113.7" JsUndefined)
                              quiet new_world) 200 body_end new_world ∧
  responds (TrackView.handler (request_from "GET" "203.0.113.7" JsUndefined)
                              quiet new_world) 405
    (body_errors (methodNotAllowedError "POST")) new_world ∧
  responds (Books.handler (request_from "POST" "203.0.113.7" JsUndefined) new_world) 405
    (body_json (JsObject [("success", JsBoolean false);
                          ("error", JsString "Method not allowed. Use GET.")])) new_world.
Proof.
  split; [|split].
  - destruct (method_not_allowed (request_from "OPTIONS" "203.0.113.7" JsUndefined)
                quiet new_world) as [H _].
    destruct H as [H _]; [discriminate|]. by apply H.
  - destruct (method_not_allowed (request_from "GET" "203.0.113.7" JsUndefined)
                quiet new_world) as [H _].
    destruct H as [_ H]; [discriminate|]. apply H. discriminate.
  - destruct (method_not_allowed (request_from "POST" "203.0.113.7" JsUndefined)
                quiet new_world) as (_ & H & _).
    apply H. discriminate.
Defined.

(** ** Coercion of [book_id] *)



(** ** The catalog listing *)

(** C5 as stated fails: with five books in the datastore and statistics
    just refreshed to count them, [GET /books?page=1&limit=20] is answered
    with no book, [pagination.total] 0, [pagination.pages] 0 and
    [stats.total_books] 0. *)
Lemma listing_ignores_datastore :
  let answer := responseBody (Books.handler Books.first_page Books.shelf).1 in
  length (bookshelf_books (db Books.shelf)) = 5%nat ∧
  bookshelf_stats (db Books.shelf) = mkStats 5 3 0 ∧
  Books.field answer ["books"] = JsArray [] ∧
  Books.field answer ["pagination"; "total"] = JsNumber (of_Z 0) ∧
  Books.field answer ["pagination"; "pages"] = JsNumber (of_Z 0) ∧
  Books.field answer ["stats"; "total_books"] = JsNumber (of_Z 0) ∧
  of_Z 0 ≠ of_Z 5 ∧ of_Z 0 ≠ of_Z 1.
Proof. vm_compute. repeat split; discriminate. Qed.

(** C5, amended. Every GET request to the catalog handler, whatever its
    query and whatever the datastore holds, is answered 200 with an empty list
    of books, [pagination] [{page: 1, limit: 20, total: 0, pages: 0}] and
    [stats] [{total_books: 0, total_authors: 0}], the state unchanged; the
    limit it reports, 20, and the number of books it returns, none, do not
    exceed 100. *)
Theorem listing_is_empty (req : Request) (w : World) :
  method req = "GET" →
  let result := Books.handler req w in
  let answer := responseBody result.1 in
  responds result 200 (body_json Books.listing) w ∧
  Books.field answer ["success"] = JsBoolean true ∧
  Books.field answer ["books"] = JsArray [] ∧
  Books.field answer ["pagination"] =
    JsObject [("page", JsNumber (of_Z 1)); ("limit", JsNumber (of_Z 20));
              ("total", JsNumber (of_Z 0)); ("pages", JsNumber (of_Z 0))] ∧
  Books.field answer ["stats"] =
    JsObject [("total_books", JsNumber (of_Z 0)); ("total_authors", JsNumber (of_Z 0))] ∧
  (∃ limit books,
     Books.field answer ["pagination"; "limit"] = JsNumber (of_Z limit) ∧
     Books.field answer ["books"] = JsArray books ∧
     limit <= 100 ∧ Z.of_nat (length books) <= 100).
Proof.
  intros Hm result answer.
  assert (result = (json (body_json Books.listing) (status 200 new_response), w)) as Hresult.
  { unfold result, Books.handler. by rewrite decide_False by (intros H; by apply H). }
  unfold answer. rewrite Hresult.
  split; [done|]. split; [reflexivity|]. split; [reflexivity|].
  split; [reflexivity|]. split; [reflexivity|].
  exists 20, []. split; [reflexivity|]. split; [reflexivity|]. split; [lia | simpl; lia].
Qed.

(** The first page of a shelf of five books. *)
Lemma listing_is_empty_witness :
  responds (Books.handler Books.first_page Books.shelf) 200 (body_json Books.listing)
           Books.shelf.
Proof.
  destruct (listing_is_empty Books.first_page Books.shelf eq_refl) as [H _]. exact H.
Defined.

(** ** The client-side observer *)

Section ViewObserver.

Import Bookshelf.

Implicit Types (page : Page) (entry : Entry) (id : string).

Lemma new_page_consistent : consistent new_page.
Proof.
  intros id. unfold calls_for, new_page. cbn [issued viewedBooks].
  case_decide as Hin; [by apply not_elem_of_empty in Hin | done].
Qed.

Lemma reported_id_trackBookView id : reported_id (trackBookView id) = Some id.
Proof. unfold reported_id, trackBookView. cbn [fetch_body]. by case_decide. Qed.

(** What one entry does to the page. *)
Lemma on_entry_cases page entry :
  (∃ id, shows id entry ∧ id ≠ EmptyString ∧ (id ∉ viewedBooks page) ∧
         on_entry page entry
           = mkPage ({[id]} ∪ viewedBooks page) (issued page ++ [trackBookView id])) ∨
  ((∀ id, shows id entry → id = EmptyString ∨ id ∈ viewedBooks page) ∧
   on_entry page entry = page).
Proof.
  unfold on_entry, shows. destruct entry as [[] [id|]]; simpl.
  - destruct (decide (id = EmptyString)) as [->|Hne].
    + right. split; [intros ? [_ [= <-]]; by left | done].
    + rewrite (bool_decide_eq_false_2 (id = EmptyString)) by done.
      destruct (decide (id ∈ viewedBooks page)) as [Hin|Hnin].
      * rewrite (bool_decide_eq_true_2 _ Hin). right.
        split; [intros ? [_ [= <-]]; by right | done].
      * rewrite (bool_decide_eq_false_2 _ Hnin). left. by exists id.
  - right. split; [intros ? [_ [=]] | done].
  - right. split; [intros ? [[=] _] | done].
  - right. split; [intros ? [[=] _] | done].
Qed.

Lemma on_entry_consistent page entry : consistent page → consistent (on_entry page entry).
Proof.
  intros Hc. destruct (on_entry_cases page entry) as [(id0 & _ & _ & Hnin & ->)|[_ ->]];
    [|done].
  intros id. unfold calls_for. cbn [issued viewedBooks]. rewrite filter_app.
  fold (calls_for id page). rewrite Hc.
  rewrite filter_cons, filter_nil, reported_id_trackBookView.
  destruct (decide (id = id0)) as [->|Hne].
  - rewrite decide_False by done. rewrite decide_True by done.
    rewrite decide_True; [done|]. apply elem_of_union. left. by apply elem_of_singleton.
  - rewrite (decide_False (P := Some id0 = Some id)) by congruence.
    rewrite app_nil_r. destruct (decide (id ∈ viewedBooks page)) as [Hin|Hout].
    + rewrite decide_True; [done|]. apply elem_of_union. by right.
    + rewrite decide_False; [done|].
      intros [Heq%elem_of_singleton|Hin]%elem_of_union; done.
Qed.

Lemma viewObserver_consistent page entries :
  consistent page → consistent (viewObserver page entries).
Proof.
  revert page. induction entries as [|entry entries IH]; intros page Hc; [done|].
  apply IH. by apply on_entry_consistent.
Qed.

Lemma observing_consistent page batches :
  consistent page → consistent (foldl viewObserver page batches).
Proof.
  revert page. induction batches as [|batch batches IH]; intros page Hc; [done|].
  apply IH. by apply viewObserver_consistent.
Qed.

(** An identifier is in [viewedBooks] after a batch exactly when it was
    there before or an entry of the batch shows it. *)
Lemma on_entry_viewed page entry id :
  id ∈ viewedBooks (on_entry page entry) ↔
  id ∈ viewedBooks page ∨ (id ≠ EmptyString ∧ shows id entry).
Proof.
  destruct (on_entry_cases page entry) as [(id0 & Hs & Hne & Hnin & ->)|[Hno ->]].
  - cbn [viewedBooks]. rewrite elem_of_union, elem_of_singleton. split.
    + intros [->|?]; [by right | by left].
    + intros [?|[_ [_ Hb]]]; [by right|]. destruct Hs as [_ Hs]. left. congruence.
  - split; [by left|]. intros [?|[Hne Hs]]; [done|]. by destruct (Hno _ Hs).
Qed.

Lemma viewObserver_viewed page entries id :
  id ∈ viewedBooks (viewObserver page entries) ↔
  id ∈ viewedBooks page ∨ (id ≠ EmptyString ∧ ∃ entry, entry ∈ entries ∧ shows id entry).
Proof.
  revert page. induction entries as [|entry entries IH]; intros page.
  - simpl. split; [by left|]. intros [?|(_ & ? & []%elem_of_nil & _)]; done.
  - cbn [viewObserver foldl]. fold (viewObserver (on_entry page entry) entries).
    rewrite IH, on_entry_viewed. split.
    + intros [[?|[? ?]]|(? & e & ? & ?)].
      * by left.
      * right. split; [done|]. exists entry. split; [apply list_elem_of_here | done].
      * right. split; [done|]. exists e. split; [by apply list_elem_of_further | done].
    + intros [?|(? & e & [->|?]%elem_of_cons & ?)].
      * left. by left.
      * left. by right.
      * right. split; [done|]. by exists e.
Qed.

Lemma observing_viewed page batches id :
  id ∈ viewedBooks (foldl viewObserver page batches) ↔
  id ∈ viewedBooks page ∨
  (id ≠ EmptyString ∧ ∃ batch entry, batch ∈ batches ∧ entry ∈ batch ∧ shows id entry).
Proof.
  revert page. induction batches as [|batch batches IH]; intros page.
  - simpl. split; [by left|]. intros [?|(_ & ? & ? & []%elem_of_nil & _)]; done.
  - cbn [foldl]. rewrite IH, viewObserver_viewed. split.
    + intros [[?|(? & e & ? & ?)]|(? & b & e & ? & ? & ?)].
      * by left.
      * right. split; [done|]. exists batch, e. split; [apply list_elem_of_here | done].
      * right. split; [done|]. exists b, e. split; [by apply list_elem_of_further | done].
    + intros [?|(? & b & e & [->|?]%elem_of_cons & ? & ?)].
      * left. by left.
      * left. right. split; [done|]. by exists e.
      * right. split; [done|]. by exists b, e.
Qed.

End ViewObserver.

(** C7. In one page session (from the empty [viewedBooks]): for every book
    identifier at most one call is issued; once an entry has shown a non-empty
    identifier, exactly one call has been issued for it, however many entries
    show it; if no entry shows it, none has; the entry that shows a non-empty
    identifier not yet in [viewedBooks] adds it there and issues one
    [trackBookView] call; and once the identifier is in [viewedBooks], no
    later batch of entries issues a call for it. *)
Theorem view_tracked_once (batches : list (list Bookshelf.Entry)) (id : string) :
  let page := Bookshelf.session batches in
  (length (Bookshelf.calls_for id page) <= 1)%nat ∧
  (id ≠ EmptyString →
   (∃ batch entry, batch ∈ batches ∧ entry ∈ batch ∧ Bookshelf.shows id entry) →
   Bookshelf.calls_for id page = [Bookshelf.trackBookView id]) ∧
  ((∀ batch entry, batch ∈ batches → entry ∈ batch → ¬ Bookshelf.shows id entry) →
   Bookshelf.calls_for id page = []) ∧
  (∀ entry, id ≠ EmptyString → (id ∉ Bookshelf.viewedBooks page) →
     Bookshelf.shows id entry →
     Bookshelf.on_entry page entry
       = Bookshelf.mkPage ({[id]} ∪ Bookshelf.viewedBooks page)
                          (Bookshelf.issued page ++ [Bookshelf.trackBookView id])) ∧
  (∀ later, id ∈ Bookshelf.viewedBooks page →
     id ∈ Bookshelf.viewedBooks (foldl Bookshelf.viewObserver page later) ∧
     Bookshelf.calls_for id (foldl Bookshelf.viewObserver page later)
       = Bookshelf.calls_for id page).
Proof.
  intros page.
  assert (Bookshelf.consistent page) as Hc
    by apply observing_consistent, new_page_consistent.
  assert (id ∈ Bookshelf.viewedBooks page ↔
          id ≠ EmptyString ∧
          ∃ batch entry, batch ∈ batches ∧ entry ∈ batch ∧ Bookshelf.shows id entry) as Hviewed.
  { unfold page, Bookshelf.session. rewrite observing_viewed. simpl.
    split; [intros [Hin|?]; [by apply not_elem_of_empty in Hin | done] | by right]. }
  split; [|split; [|split; [|split]]].
  - rewrite Hc. case_decide; simpl; lia.
  - intros Hne Hshown. rewrite Hc. by rewrite decide_True by (by apply Hviewed).
  - intros Hnone. rewrite Hc. rewrite decide_False; [done|].
    intros (_ & b & e & Hb & He & Hs)%Hviewed. by apply (Hnone b e).
  - intros entry Hne Hnin [Hi Hb]. unfold Bookshelf.on_entry. rewrite Hi, Hb.
    rewrite (bool_decide_eq_false_2 (id = EmptyString)) by done.
    by rewrite (bool_decide_eq_false_2 _ Hnin).
  - intros later Hin.
    assert (id ∈ Bookshelf.viewedBooks (foldl Bookshelf.viewObserver page later)) as Hin'
      by (apply observing_viewed; by left).
    split; [done|].
    rewrite (observing_consistent page later Hc id), (Hc id).
    by rewrite !decide_True by done.
Qed.

(** A card scrolled into view, out of it, and back. *)
Lemma view_tracked_once_witness :
  let visible := Bookshelf.mkEntry true (Some "42") in
  let hidden := Bookshelf.mkEntry false (Some "42") in
  Bookshelf.calls_for "42" (Bookshelf.session [[visible]; [hidden]; [visible]])
    = [Bookshelf.trackBookView "42"].
Proof.
  intros visible hidden.
  destruct (view_tracked_once [[visible]; [hidden]; [visible]] "42") as (_ & Honce & _).
  apply Honce; [discriminate|].
  exists [visible], visible. split; [apply list_elem_of_here|].
  split; [apply list_elem_of_here | by split].
Defined.

(** * Further properties of the sources *)

(** ** Strings *)

Lemma own_only_check (name : string) :
  bool_decide (ObjectPrototype.own_only name) = true → ObjectPrototype.own_only name.
Proof. apply bool_decide_eq_true_1. Qed.

Section Strings.

Implicit Types (s t u : string) (a c : ascii).

Lemma string_app_nil_r s : s +:+ EmptyString = s.
Proof.
  induction s as [|a s IH]; [done|].
  change (String a (s +:+ EmptyString) = String a s). by rewrite IH.
Qed.

Lemma string_app_assoc s t u : (s +:+ t) +:+ u = s +:+ (t +:+ u).
Proof.
  induction s as [|a s IH]; [done|].
  change (String a ((s +:+ t) +:+ u) = String a (s +:+ (t +:+ u))). by rewrite IH.
Qed.

Lemma rev_app_append s t u :
  String.rev_app (s +:+ t) u = String.rev_app t (String.rev_app s u).
Proof.
  revert u. induction s as [|a s IH]; intros u; [done|].
  change (String.rev_app (s +:+ t) (String a u)
          = String.rev_app t (String.rev_app s (String a u))).
  apply IH.
Qed.

Lemma rev_app_rev_app s t u :
  String.rev_app (String.rev_app s t) u = String.rev_app t (s +:+ u).
Proof.
  revert t u. induction s as [|a s IH]; intros t u; [done|].
  cbn [String.rev_app]. rewrite IH. done.
Qed.

Lemma rev_app_length s t :
  String.length (String.rev_app s t) = (String.length s + String.length t)%nat.
Proof.
  revert t. induction s as [|a s IH]; intros t; [done|].
  cbn [String.rev_app]. rewrite IH. simpl. lia.
Qed.

Lemma string_rev_involutive s : String.rev (String.rev s) = s.
Proof. unfold String.rev. rewrite rev_app_rev_app. cbn. apply string_app_nil_r. Qed.

Lemma string_rev_length s : String.length (String.rev s) = String.length s.
Proof. unfold String.rev. rewrite rev_app_length. simpl. lia. Qed.

Lemma string_rev_snoc s a : String.rev (s +:+ String a EmptyString) = String a (String.rev s).
Proof. unfold String.rev. by rewrite rev_app_append. Qed.

Lemma string_rev_cons s a : String.rev (String a s) = String.rev s +:+ String a EmptyString.
Proof.
  rewrite <- (string_rev_involutive (String.rev s +:+ String a EmptyString)).
  by rewrite string_rev_snoc, string_rev_involutive.
Qed.

Lemma trim_start_length s : (String.length (trim_start s) <= String.length s)%nat.
Proof.
  induction s as [|a s IH]; [done|]. cbn [trim_start].
  destruct (is_white_space a); simpl in *; lia.
Qed.

Lemma trim_start_idempotent s : trim_start (trim_start s) = trim_start s.
Proof.
  induction s as [|a s IH]; [done|]. cbn [trim_start].
  destruct (is_white_space a) eqn:Ha; [done|]. cbn [trim_start]. by rewrite Ha.
Qed.

Lemma trim_start_snoc s c :
  is_white_space c = false →
  trim_start (s +:+ String c EmptyString) = trim_start s +:+ String c EmptyString.
Proof.
  intros Hc. induction s as [|a s IH].
  - change (trim_start (String c EmptyString) = String c EmptyString).
    cbn [trim_start]. by rewrite Hc.
  - change (trim_start (String a (s +:+ String c EmptyString))
            = trim_start (String a s) +:+ String c EmptyString).
    cbn [trim_start]. destruct (is_white_space a); [exact IH | done].
Qed.

(** What [trim] returns has no white space in front. *)
Lemma trim_start_trim s : trim_start (trim s) = trim s.
Proof.
  unfold trim. pose proof (trim_start_idempotent s) as Hfix.
  destruct (trim_start s) as [|c t]; [done|].
  cbn [trim_start] in Hfix. destruct (is_white_space c) eqn:Hc.
  - (* a fixed point of [trim_start] that starts with white space is shorter
       than itself *)
    pose proof (trim_start_length t) as Hlen. rewrite Hfix in Hlen. simpl in Hlen. lia.
  - rewrite string_rev_cons, trim_start_snoc by done.
    rewrite string_rev_snoc. cbn [trim_start]. by rewrite Hc.
Qed.

(** [trim] is idempotent. *)
Lemma trim_idempotent s : trim (trim s) = trim s.
Proof.
  unfold trim at 1. rewrite trim_start_trim.
  unfold trim. rewrite string_rev_involutive, trim_start_idempotent. done.
Qed.

Lemma trim_length s : (String.length (trim s) <= String.length s)%nat.
Proof.
  unfold trim. rewrite string_rev_length.
  etrans; [apply trim_start_length|]. rewrite string_rev_length. apply trim_start_length.
Qed.

Lemma string_take_length n s :
  String.length (string_take n s) = Nat.min n (String.length s).
Proof.
  revert s. induction n as [|n IH]; intros [|a s]; simpl; try done. by rewrite IH.
Qed.

End Strings.

(** ** [sanitize.js] *)

Section SanitizeFacts.

Import Sanitize.

Implicit Types (s t : string) (a c : ascii) (text url : JsValue).

Lemma replace_char_app c by_ s t :
  replace_char c by_ (s +:+ t) = replace_char c by_ s +:+ replace_char c by_ t.
Proof.
  induction s as [|a s IH]; [done|].
  change (replace_char c by_ (String a (s +:+ t))
          = replace_char c by_ (String a s) +:+ replace_char c by_ t).
  cbn [replace_char]. case_decide.
  - by rewrite IH, string_app_assoc.
  - rewrite IH. done.
Qed.

(** The six replacements of [sanitizeText], in their order. *)
Lemma replacements_app s t :
  let chain s :=
    replace_char "/" "&#x2F;"
      (replace_char "'" "&#x27;"
         (replace_char "034" "&quot;"
            (replace_char ">" "&gt;"
               (replace_char "<" "&lt;" (replace_char "&" "&amp;" s))))) in
  chain (s +:+ t) = chain s +:+ chain t.
Proof. cbv beta zeta. by rewrite !replace_char_app. Qed.

Lemma replacements_single a :
  replace_char "/" "&#x2F;"
    (replace_char "'" "&#x27;"
       (replace_char "034" "&quot;"
          (replace_char ">" "&gt;"
             (replace_char "<" "&lt;" (replace_char "&" "&amp;" (String a EmptyString))))))
  = encode_char a.
Proof. destruct a as [[] [] [] [] [] [] [] []]; vm_compute; reflexivity. Qed.

Lemma replacements_encode s :
  replace_char "/" "&#x2F;"
    (replace_char "'" "&#x27;"
       (replace_char "034" "&quot;"
          (replace_char ">" "&gt;"
             (replace_char "<" "&lt;" (replace_char "&" "&amp;" s)))))
  = encode s.
Proof.
  induction s as [|a s IH]; [done|].
  change (String a s) with (String a EmptyString +:+ s).
  pose proof (replacements_app (String a EmptyString) s) as Happ. cbv beta zeta in Happ.
  rewrite Happ, replacements_single, IH. done.
Qed.

Lemma encode_app s t : encode (s +:+ t) = encode s +:+ encode t.
Proof.
  induction s as [|a s IH]; [done|].
  change (encode_char a +:+ encode (s +:+ t) = (encode_char a +:+ encode s) +:+ encode t).
  by rewrite IH, string_app_assoc.
Qed.

Lemma occurs_app c s t : occurs c (s +:+ t) = occurs c s || occurs c t.
Proof.
  induction s as [|a s IH]; [done|].
  change (bool_decide (a = c) || occurs c (s +:+ t)
          = bool_decide (a = c) || occurs c s || occurs c t).
  by rewrite IH, orb_assoc.
Qed.

Lemma sanitizeText_string s : sanitizeText (JsString s) = encode s.
Proof.
  unfold sanitizeText, not_text. cbn [ToBoolean typeof].
  destruct s as [|a s]; [done|].
  rewrite (bool_decide_eq_false_2 (String a s = EmptyString)) by done.
  rewrite (bool_decide_eq_true_2 ("string" = "string")) by done.
  cbn [negb orb]. apply replacements_encode.
Qed.

Lemma sanitizeText_cases text :
  sanitizeText text = match text with JsString s => encode s | _ => EmptyString end.
Proof.
  destruct text as [| | | |s| |]; try (unfold sanitizeText; by destruct (not_text _)).
  apply sanitizeText_string.
Qed.

(** X1. [sanitizeText] encodes its text character by character: each of
    [&], [<], [>], the double quote, the apostrophe and [/] becomes its
    entity and every other character stays, so that the ampersands the
    earlier replacements write are not encoded again by the later ones; a
    value that is not a string gives the empty string; and the text of a
    concatenation is the concatenation of the texts. *)
Theorem sanitizeText_encodes :
  (∀ text, sanitizeText text
           = match text with JsString s => encode s | _ => EmptyString end) ∧
  (∀ s t, sanitizeText (JsString (s +:+ t))
          = sanitizeText (JsString s) +:+ sanitizeText (JsString t)).
Proof.
  split; [apply sanitizeText_cases|].
  intros s t. rewrite !sanitizeText_string. apply encode_app.
Qed.

Lemma encode_char_safe a :
  occurs "<" (encode_char a) = false ∧ occurs ">" (encode_char a) = false ∧
  occurs "034" (encode_char a) = false ∧ occurs "'" (encode_char a) = false ∧
  occurs "/" (encode_char a) = false.
Proof. destruct a as [[] [] [] [] [] [] [] []]; vm_compute; done. Qed.

(** X2. Whatever it is given, [sanitizeText] returns a string in which none
    of [<], [>], the double quote, the apostrophe and [/] occurs. *)
Theorem sanitizeText_no_markup (text : JsValue) :
  occurs "<" (sanitizeText text) = false ∧ occurs ">" (sanitizeText text) = false ∧
  occurs "034" (sanitizeText text) = false ∧ occurs "'" (sanitizeText text) = false ∧
  occurs "/" (sanitizeText text) = false.
Proof.
  rewrite sanitizeText_cases.
  destruct text as [| | | |s| |]; try done.
  induction s as [|a s IH]; [done|].
  cbn [encode]. rewrite !occurs_app.
  destruct (encode_char_safe a) as (-> & -> & -> & -> & ->).
  exact IH.
Qed.

Lemma encode_char_length a :
  (1 <= String.length (encode_char a))%nat ∧
  (String.length (encode_char a) = 1%nat →
   encode_char a = String a EmptyString ∧
   a ≠ "&"%char ∧ a ≠ "<"%char ∧ a ≠ ">"%char ∧ a ≠ "034"%char ∧ a ≠ "'"%char ∧
   a ≠ "/"%char).
Proof. destruct a as [[] [] [] [] [] [] [] []]; vm_compute; split; (lia || done). Qed.

Lemma encode_length s : (String.length s <= String.length (encode s))%nat.
Proof.
  induction s as [|a s IH]; [done|]. cbn [encode]. rewrite string_length_app.
  destruct (encode_char_length a) as [H _]. simpl. lia.
Qed.

(** X3. [sanitizeText] returns a text unchanged exactly when none of the six
    characters it encodes occurs in the text; otherwise what it returns is
    longer than the text. *)
Theorem sanitizeText_identity (s : string) :
  let special :=
    occurs "&" s || occurs "<" s || occurs ">" s || occurs "034" s || occurs "'" s
    || occurs "/" s in
  (sanitizeText (JsString s) = s ↔ special = false) ∧
  (String.length s <= String.length (sanitizeText (JsString s)))%nat ∧
  (special = true → (String.length s < String.length (sanitizeText (JsString s)))%nat).
Proof.
  cbv zeta. rewrite sanitizeText_string.
  assert ((String.length (encode s) = String.length s →
           encode s = s ∧
           occurs "&" s || occurs "<" s || occurs ">" s || occurs "034" s
           || occurs "'" s || occurs "/" s = false) ∧
          (occurs "&" s || occurs "<" s || occurs ">" s || occurs "034" s
           || occurs "'" s || occurs "/" s = false → encode s = s)) as [Hlen Hsafe].
  { induction s as [|a s [IH1 IH2]]; [done|]. cbn [encode occurs]. split.
    - rewrite string_length_app. intros Hl.
      destruct (encode_char_length a) as [H1 H2]. pose proof (encode_length s) as Hs.
      cbn [String.length] in Hl.
      destruct H2 as (Ha & ? & ? & ? & ? & ? & ?); [lia|].
      destruct IH1 as [He Ho]; [lia|].
      rewrite Ha, He. split; [done|].
      apply orb_false_elim in Ho as [Ho O6]. apply orb_false_elim in Ho as [Ho O5].
      apply orb_false_elim in Ho as [Ho O4]. apply orb_false_elim in Ho as [Ho O3].
      apply orb_false_elim in Ho as [O1 O2].
      rewrite O1, O2, O3, O4, O5, O6.
      by rewrite !bool_decide_eq_false_2 by done.
    - intros Hs.
      apply orb_false_elim in Hs as [Hs H6]. apply orb_false_elim in Hs as [Hs H5].
      apply orb_false_elim in Hs as [Hs H4]. apply orb_false_elim in Hs as [Hs H3].
      apply orb_false_elim in Hs as [H1 H2].
      apply orb_false_elim in H1 as [A1 O1]. apply orb_false_elim in H2 as [A2 O2].
      apply orb_false_elim in H3 as [A3 O3]. apply orb_false_elim in H4 as [A4 O4].
      apply orb_false_elim in H5 as [A5 O5]. apply orb_false_elim in H6 as [A6 O6].
      rewrite IH2 by (by rewrite O1, O2, O3, O4, O5, O6).
      apply bool_decide_eq_false in A1, A2, A3, A4, A5, A6.
      unfold encode_char. by rewrite !decide_False by done. }
  pose proof (encode_length s) as Hle. split; [|split].
  - split; [|exact Hsafe]. intros Heq. apply Hlen. by rewrite Heq.
  - exact Hle.
  - intros Hspecial. destruct (decide (String.length (encode s) = String.length s)) as [He|He].
    + destruct (Hlen He) as [_ Hnone]. congruence.
    + lia.
Qed.

Lemma sanitizeText_identity_witness :
  (String.length "Tom & Jerry" < String.length (sanitizeText (JsString "Tom & Jerry")))%nat.
Proof.
  destruct (sanitizeText_identity "Tom & Jerry") as (_ & _ & H). apply H.
  vm_compute. reflexivity.
Defined.

End SanitizeFacts.

Section TruncateAndUrl.

Import Sanitize.

Implicit Types (s : string) (maxLength : Z).

Lemma truncateText_string s maxLength :
  s ≠ EmptyString →
  truncateText (JsString s) maxLength =
    if decide (Z.of_nat (String.length s) <= maxLength) then s
    else trim (substring_from_0 s maxLength) +:+ "...".
Proof.
  intros Hs. unfold truncateText, not_text. cbn [ToBoolean typeof].
  rewrite (bool_decide_eq_false_2 (s = EmptyString)) by done.
  rewrite (bool_decide_eq_true_2 ("string" = "string")) by done. done.
Qed.

(** X4. On an ASCII text, [truncateText] returns a text that fits
    [maxLength] as it is, and the empty text as it is whatever [maxLength]; of
    a longer text it keeps at most [maxLength] characters (none when
    [maxLength] is negative), trimmed, and appends three dots, so that what it
    returns is at most [max(0, maxLength) + 3] characters long: up to three
    more than [maxLength], and possibly more than the text itself. *)
Theorem truncateText_bound (s : string) (maxLength : Z) :
  Exact.is_ascii s = true →
  (Z.of_nat (String.length s) <= maxLength → truncateText (JsString s) maxLength = s) ∧
  truncateText (JsString EmptyString) maxLength = EmptyString ∧
  (s ≠ EmptyString → maxLength < Z.of_nat (String.length s) →
   ∃ kept, truncateText (JsString s) maxLength = kept +:+ "..." ∧
           kept = trim (string_take (Z.to_nat maxLength) s) ∧
           Z.of_nat (String.length kept) <= Z.max 0 maxLength) ∧
  Z.of_nat (String.length (truncateText (JsString s) maxLength)) <= Z.max 0 maxLength + 3.
Proof.
  intros _.
  assert (Z.of_nat (String.length (trim (substring_from_0 s maxLength))) <= Z.max 0 maxLength)
    as Hkept.
  { pose proof (trim_length (substring_from_0 s maxLength)) as Ht.
    unfold substring_from_0 in *. rewrite string_take_length in Ht. lia. }
  destruct (decide (s = EmptyString)) as [->|Hs].
  { split; [done|]. split; [done|]. split; [done|]. simpl. lia. }
  rewrite (truncateText_string _ _ Hs).
  split; [|split; [done|split]].
  - intros H. by rewrite decide_True.
  - intros _ H. rewrite decide_False by lia. eexists. split; [done|]. split; [done|].
    exact Hkept.
  - case_decide.
    + lia.
    + rewrite string_length_app. simpl String.length. lia.
Qed.

(** A text of four characters cut at three comes back six long. *)
Lemma truncateText_bound_witness :
  truncateText (JsString "four") 4 = "four" ∧
  ∃ kept, truncateText (JsString "four") 3 = kept +:+ "..." ∧
          kept = trim (string_take (Z.to_nat 3) "four") ∧
          Z.of_nat (String.length kept) <= Z.max 0 3.
Proof.
  split.
  - apply (truncateText_bound "four" 4); [reflexivity|]. simpl. lia.
  - apply (truncateText_bound "four" 3); [reflexivity | discriminate | simpl; lia].
Defined.

Lemma matches_http_first (u : string) :
  matches_http u = true → ∃ b u', u = String b u' ∧ to_lower b = "h"%char.
Proof.
  unfold matches_http. destruct u as [|b u']; [done|].
  cbn [starts_with_ci]. intros H. exists b, u'. split; [done|].
  destruct (decide ("h"%char = to_lower b)) as [<-|]; done.
Qed.

(** X5. On a value that is not a string, or is an ASCII string,
    [sanitizeUrl] returns either the empty string or its argument
    trimmed, and the latter only when that begins with [http://] or
    [https://] in any case of letters; what it returns never begins with
    [javascript:], [data:] or [vbscript:], a check that no URL reaching it can
    fail; sanitizing what it returned returns the same; and every string that
    begins so once trimmed is returned trimmed. *)
Theorem sanitizeUrl_http_only (url : JsValue) :
  (∀ s, url = JsString s → Exact.is_ascii s = true) →
  let result := sanitizeUrl url in
  (result = EmptyString ∨
   (matches_http result = true ∧ ∃ s, url = JsString s ∧ result = trim s)) ∧
  matches_script result = false ∧
  sanitizeUrl (JsString result) = result ∧
  (∀ u, matches_http u = true → matches_script u = false) ∧
  (∀ s, url = JsString s → matches_http (trim s) = true → result = trim s).
Proof.
  intros _.
  assert (∀ u, matches_http u = true → matches_script u = false) as Hdead.
  { intros u (b & u' & -> & Hb)%matches_http_first.
    unfold matches_script. cbn [starts_with_ci]. rewrite Hb. done. }
  assert (∀ s, matches_http (trim s) = true → sanitizeUrl (JsString s) = trim s) as Hpass.
  { intros s Hs. unfold sanitizeUrl, not_text. cbn [ToBoolean typeof].
    destruct s as [|a s]; [done|].
    rewrite (bool_decide_eq_false_2 (String a s = EmptyString)) by done.
    rewrite (bool_decide_eq_true_2 ("string" = "string")) by done. cbn [negb orb].
    by rewrite Hs, (Hdead _ Hs). }
  assert (sanitizeUrl url = EmptyString ∨
          (matches_http (sanitizeUrl url) = true ∧
           ∃ s, url = JsString s ∧ sanitizeUrl url = trim s)) as Hcases.
  { unfold sanitizeUrl. destruct (not_text url); [by left|].
    destruct url as [| | | |s| |]; try (by left).
    destruct (matches_http (trim s)) eqn:Hs; [|by left].
    rewrite (Hdead _ Hs). cbn [negb]. right. split; [done|]. by exists s. }
  cbv zeta. split; [exact Hcases|]. split; [|split; [|split; [exact Hdead|]]].
  - destruct Hcases as [-> | [H _]]; [done | by apply Hdead].
  - destruct Hcases as [-> | (H & s & -> & Hr)]; [done|].
    rewrite Hr in *. rewrite <- (trim_idempotent s) at 2.
    apply Hpass. by rewrite trim_idempotent.
  - intros s -> Hs. by apply Hpass.
Qed.

Lemma sanitizeUrl_http_only_witness :
  sanitizeUrl (JsString "  HTTPS://Example.org/a?b=<c> ") = "HTTPS://Example.org/a?b=<c>".
Proof.
  destruct (sanitizeUrl_http_only (JsString "  HTTPS://Example.org/a?b=<c> "))
    as (_ & _ & _ & _ & H).
  { intros s [= <-]. reflexivity. }
  rewrite (H _ eq_refl); [reflexivity|]. vm_compute. reflexivity.
Defined.

End TruncateAndUrl.

(** ** [env-validator.js] *)

Section EnvValidatorFacts.

Import EnvValidator.

Implicit Types (env : ProcessEnv) (varName : string).

(** The names [ENV_REQUIREMENTS] marks as required. *)
Lemma required_names varName :
  (∃ r, requirement varName = Some r ∧ req_required r = true) ↔
  varName = "SUPABASE_URL" ∨ varName = "SUPABASE_ANON_KEY".
Proof.
  unfold requirement, ENV_REQUIREMENTS. cbn [requirement_in]. split.
  - intros (r & Hr & Hreq).
    repeat (case_decide; [simplify_eq; cbn in Hreq; auto; done|]). done.
  - intros [-> | ->]; eexists; split; reflexivity.
Qed.

(** The loop of [validateEnv] over the names of [ENV_REQUIREMENTS], in
    terms of the three variables it can object to. *)
Lemma validateEnv_default_valid env :
  valid (validateEnv None env) = true ↔
  unset (env_get env "SUPABASE_URL") = false ∧
  unset (env_get env "SUPABASE_ANON_KEY") = false ∧
  (unset (env_get env "NODE_ENV") = true ∨
   ∃ v, env_get env "NODE_ENV" = Some v ∧ v ∈ ["development"; "production"; "test"]).
Proof.
  unfold validateEnv.
  change (default (ENV_REQUIREMENTS.*1) None)
    with ["SUPABASE_URL"; "SUPABASE_ANON_KEY"; "AMAZON_AFFILIATE_TAG"; "NODE_ENV"].
  cbn [foldl]. unfold check_var at 4.
  change (requirement "SUPABASE_URL") with (requirement_in ENV_REQUIREMENTS "SUPABASE_URL").
  cbn [requirement_in ENV_REQUIREMENTS]. rewrite decide_True by done.
  cbn [req_required req_minLength req_validValues andb].
  destruct (env_get env "SUPABASE_URL") as [[|a1 u]|];
    cbn [unset bool_decide decide_rel]; try rewrite bool_decide_eq_true_2 by done;
    try rewrite (bool_decide_eq_false_2 (String a1 u = EmptyString)) by done;
    try rewrite (decide_False (P := String a1 u = EmptyString)) by done;
    try rewrite (decide_True (P := EmptyString = EmptyString)) by done.
  all: unfold check_var at 3;
    change (requirement "SUPABASE_ANON_KEY")
      with (Some (mkRequirement true "Supabase anonymous/public API key" None true
                                None None None));
    cbn [req_required req_minLength req_validValues andb].
  all: destruct (env_get env "SUPABASE_ANON_KEY") as [[|a2 k]|];
    cbn [unset]; try rewrite bool_decide_eq_true_2 by done;
    try rewrite (bool_decide_eq_false_2 (String a2 k = EmptyString)) by done;
    try rewrite (decide_False (P := String a2 k = EmptyString)) by done.
  all: unfold check_var at 2;
    change (requirement "AMAZON_AFFILIATE_TAG")
      with (Some (mkRequirement false "Amazon Associates affiliate tag for buy links"
                                (Some "yourtaghere-20") false (Some "minihover-21")
                                None None));
    cbn [req_required req_minLength req_validValues andb].
  all: destruct (env_get env "AMAZON_AFFILIATE_TAG") as [[|a3 t]|];
    try rewrite (decide_False (P := String a3 t = EmptyString)) by done;
    try rewrite (decide_True (P := EmptyString = EmptyString)) by done.
  all: unfold check_var;
    change (requirement "NODE_ENV")
      with (Some (mkRequirement false "Node environment (development, production)" None
                                false (Some "production")
                                (Some ["development"; "production"; "test"]) None));
    cbn [req_required req_minLength req_validValues andb].
  all: destruct (env_get env "NODE_ENV") as [[|a4 n]|];
    cbn [unset]; try rewrite bool_decide_eq_true_2 by done;
    try rewrite (bool_decide_eq_false_2 (String a4 n = EmptyString)) by done;
    try rewrite (decide_False (P := String a4 n = EmptyString)) by done;
    try rewrite (decide_True (P := EmptyString = EmptyString)) by done.
  all: try (case_decide as Hin).
  all: cbn [valid app length bool_decide decide_rel].
  all: split; [intros Hv | intros (H1 & H2 & H3)]; try done.
  all: try (split; [done|split; [done|]]).
  all: try (by left).
  all: try (right; eexists; split; [reflexivity|done]).
  all: try (destruct H3 as [H3|(v & [= <-] & H3)]; done).
Qed.

Lemma validateEnv_default_warnings env : env_warnings (validateEnv None env) = [].
Proof.
  unfold validateEnv.
  change (default (ENV_REQUIREMENTS.*1) None)
    with ["SUPABASE_URL"; "SUPABASE_ANON_KEY"; "AMAZON_AFFILIATE_TAG"; "NODE_ENV"].
  assert (∀ vars acc, Forall (λ v, is_Some (requirement v)) vars →
            (foldl (check_var env) acc vars).2 = acc.2) as Hwarn.
  { induction vars as [|v vars IH]; intros [errs warns] Hvars; [done|].
    apply Forall_cons in Hvars as [[r Hr] Hvars]. cbn [foldl]. rewrite IH by done.
    unfold check_var. rewrite Hr. by repeat case_match. }
  specialize (Hwarn ["SUPABASE_URL"; "SUPABASE_ANON_KEY"; "AMAZON_AFFILIATE_TAG"; "NODE_ENV"]
                    ([], [])).
  destruct (foldl _ _ _) as [errors warnings]. cbn [env_warnings]. apply Hwarn.
  repeat constructor; by eexists.
Qed.

(** X6. [validateEnv()] over the variables of [ENV_REQUIREMENTS] is valid
    exactly when [SUPABASE_URL] and [SUPABASE_ANON_KEY] are set and not empty
    and [NODE_ENV] is unset, empty or one of development, production and test;
    whether [AMAZON_AFFILIATE_TAG] is set plays no part; and it gives no
    warning. *)
Theorem validateEnv_default (env : ProcessEnv) :
  (valid (validateEnv None env) = true ↔
   unset (env_get env "SUPABASE_URL") = false ∧
   unset (env_get env "SUPABASE_ANON_KEY") = false ∧
   (unset (env_get env "NODE_ENV") = true ∨
    ∃ v, env_get env "NODE_ENV" = Some v ∧ v ∈ ["development"; "production"; "test"])) ∧
  (valid (validateEnv None env) = true ↔ env_errors (validateEnv None env) = []) ∧
  env_warnings (validateEnv None env) = [].
Proof.
  split; [apply validateEnv_default_valid|]. split.
  - unfold validateEnv. destruct (foldl _ _ _) as [errors warnings]. cbn [valid env_errors].
    rewrite bool_decide_eq_true. by destruct errors.
  - apply validateEnv_default_warnings.
Qed.

Lemma validateEnv_default_witness :
  valid (validateEnv None [("SUPABASE_URL", "https://x.supabase.co");
                           ("SUPABASE_ANON_KEY", "key"); ("NODE_ENV", "test")]) = true.
Proof.
  destruct (validateEnv_default [("SUPABASE_URL", "https://x.supabase.co");
                                 ("SUPABASE_ANON_KEY", "key"); ("NODE_ENV", "test")])
    as [[_ H] _].
  apply H. split; [reflexivity|]. split; [reflexivity|].
  right. eexists. split; [reflexivity|]. apply list_elem_of_In. simpl. auto.
Defined.

Lemma check_unknown env vars errs warns :
  Forall (λ v, requirement v = None) vars →
  foldl (check_var env) (errs, warns) vars
  = (errs, warns ++ ((λ v, "Unknown environment variable: " +:+ v) <$> vars)).
Proof.
  revert warns. induction vars as [|v vars IH]; intros warns Hvars.
  - by rewrite app_nil_r.
  - apply Forall_cons in Hvars as [Hv Hvars]. cbn [foldl]. unfold check_var at 2.
    rewrite Hv, IH by done. by rewrite <- app_assoc.
Qed.

(** X7. Names that [ENV_REQUIREMENTS] does not know (and that are not
    names every object inherits) never make [validateEnv] fail: a list of such
    names is valid, whatever the environment, with one warning a name and no
    error; and [requireEnv] on such a list does not throw, and warns unless
    the list is empty or [NODE_ENV] is production. *)
Theorem unknown_variables_only_warn (vars : list string) (env : ProcessEnv) :
  Forall ObjectPrototype.own_only vars →
  Forall (λ v, requirement v = None) vars →
  validateEnv (Some vars) env
    = mkEnvValidation true [] ((λ v, "Unknown environment variable: " +:+ v) <$> vars) ∧
  requireEnv (Some vars) env
    = if bool_decide (env_get env "NODE_ENV" = Some "production") || bool_decide (vars = [])
      then Returns None
      else Returns (Some ((λ v, "Unknown environment variable: " +:+ v) <$> vars)).
Proof.
  intros _ Hvars.
  assert (validateEnv (Some vars) env
          = mkEnvValidation true []
              ((λ v, "Unknown environment variable: " +:+ v) <$> vars)) as Hv.
  { unfold validateEnv. cbn [default]. by rewrite check_unknown. }
  split; [exact Hv|]. unfold requireEnv. rewrite Hv. cbn [valid negb env_warnings].
  destruct (bool_decide (env_get env "NODE_ENV" = Some "production")); [done|].
  cbn [negb andb orb]. destruct vars; [done|]. cbn [fmap list_fmap length].
  rewrite bool_decide_eq_true_2 by lia. by rewrite bool_decide_eq_false_2.
Qed.

Lemma unknown_variables_only_warn_witness :
  requireEnv (Some ["SUPABASE_KEY"]) []
  = Returns (Some ["Unknown environment variable: SUPABASE_KEY"]).
Proof.
  apply (unknown_variables_only_warn ["SUPABASE_KEY"] []).
  - repeat constructor. by apply own_only_check.
  - repeat constructor.
Defined.

(** X8. [requireEnv()] over the variables of [ENV_REQUIREMENTS] returns,
    without a warning, exactly when [SUPABASE_URL] and [SUPABASE_ANON_KEY]
    are set and not empty and [NODE_ENV] is unset, empty or a valid value;
    otherwise it throws an error whose message starts with the line
    announcing the failure. *)
Theorem requireEnv_default (env : ProcessEnv) :
  let ready :=
    unset (env_get env "SUPABASE_URL") = false ∧
    unset (env_get env "SUPABASE_ANON_KEY") = false ∧
    (unset (env_get env "NODE_ENV") = true ∨
     ∃ v, env_get env "NODE_ENV" = Some v ∧ v ∈ ["development"; "production"; "test"]) in
  (ready ↔ requireEnv None env = Returns None) ∧
  (¬ ready ↔
   ∃ rest, requireEnv None env
           = ThrowsError ("Environment variable validation failed:" +:+ LF +:+ rest)).
Proof.
  cbv zeta. rewrite <- validateEnv_default_valid.
  pose proof (validateEnv_default_warnings env) as Hwarn.
  unfold requireEnv. rewrite Hwarn.
  destruct (valid (validateEnv None env)); cbn [negb length].
  - rewrite andb_false_r. split; [done|]. split; [done|]. intros [rest Hrest]. done.
  - split; [split; done|]. split; [|done]. intros _.
    cbn [app join]. destruct (env_errors (validateEnv None env) ++ _) eqn:He.
    + by destruct (env_errors (validateEnv None env)).
    + eexists. reflexivity.
Qed.

Lemma requireEnv_default_witness :
  ∃ rest, requireEnv None [("SUPABASE_URL", "https://x.supabase.co")]
          = ThrowsError ("Environment variable validation failed:" +:+ LF +:+ rest).
Proof.
  apply requireEnv_default. intros (_ & H & _). discriminate H.
Defined.

(** X9. For a name that is not one every object inherits, [getEnv] throws
    exactly when the variable is unset or empty, no
    default is given and the variable is one of the two required ones. A
    string it returns is the variable's value, not empty, or else the default
    given; it returns [null] only when the variable is unset or empty and no
    default is given. The default that [ENV_REQUIREMENTS] records for a
    variable is not used: an optional variable that is unset gives [null]. *)
Theorem getEnv_outcomes (varName : string) (defaultValue : option string) (env : ProcessEnv) :
  ObjectPrototype.own_only varName →
  ((∃ message, getEnv varName defaultValue env = ThrowsError message) ↔
   unset (env_get env varName) = true ∧ defaultValue = None ∧
   (varName = "SUPABASE_URL" ∨ varName = "SUPABASE_ANON_KEY")) ∧
  (∀ v, getEnv varName defaultValue env = Returns (Some v) →
        (env_get env varName = Some v ∧ v ≠ EmptyString) ∨
        (unset (env_get env varName) = true ∧ defaultValue = Some v)) ∧
  (getEnv varName defaultValue env = Returns None →
   unset (env_get env varName) = true ∧ defaultValue = None) ∧
  (∀ r, requirement varName = Some r → req_required r = false →
        unset (env_get env varName) = true →
        getEnv varName None env = Returns None).
Proof.
  intros _. pose proof (required_names varName) as Hreq.
  unfold getEnv. split; [|split; [|split]].
  - split.
    + intros [message H].
      destruct (unset (env_get env varName)) eqn:Hu; [|by destruct (env_get env varName)].
      destruct defaultValue; [done|]. cbn [andb bool_decide] in H.
      rewrite bool_decide_eq_true_2 in H by done. cbn [andb] in H.
      destruct (requirement varName) as [r|] eqn:Hr; [|done].
      destruct (req_required r) eqn:Hrr; [|done].
      split; [done|]. split; [done|]. apply Hreq. eauto.
    + intros (Hu & -> & Hname). apply Hreq in Hname as (r & Hr & Hrr).
      rewrite Hu, Hr, Hrr. rewrite bool_decide_eq_true_2 by done. eexists. reflexivity.
  - intros v. destruct (unset (env_get env varName)) eqn:Hu.
    + cbn [andb]. case_match; [done|]. intros [= ->]. by right.
    + cbn [andb]. intros [= Hv]. left. split; [done|].
      rewrite Hv in Hu. cbn [unset] in Hu. by apply bool_decide_eq_false in Hu.
  - destruct (unset (env_get env varName)) eqn:Hu.
    + cbn [andb]. case_match; [done|]. by intros [= ->].
    + cbn [andb]. intros [= Hv]. rewrite Hv in Hu. done.
  - intros r Hr Hrr Hu. by rewrite Hu, Hr, Hrr, andb_false_r.
Qed.

Lemma getEnv_outcomes_witness :
  (∃ message, getEnv "SUPABASE_URL" None [] = ThrowsError message) ∧
  getEnv "NODE_ENV" None [] = Returns None.
Proof.
  split.
  - apply (getEnv_outcomes "SUPABASE_URL" None []); [by apply own_only_check|].
    split; [reflexivity|]. split; [reflexivity|]. by left.
  - destruct (getEnv_outcomes "NODE_ENV" None []) as (_ & _ & _ & H);
      [by apply own_only_check|].
    by apply (H (mkRequirement false "Node environment (development, production)" None
                               false (Some "production")
                               (Some ["development"; "production"; "test"]) None)).
Defined.

End EnvValidatorFacts.

(** ** Headers and the caller's address *)

Section HeaderFacts.

Implicit Types (hs : list (string * string)) (name value : string) (res : Response).






(** X11. For a request whose [x-forwarded-for] header, if it has one, is
    ASCII: [getClientIp] never returns the empty string. What it returns is
    the first entry of [x-forwarded-for], trimmed, if that is not empty; else
    [x-real-ip] if not empty; else the socket's address if not empty; else
    [unknown]. A header the client writes thus takes precedence over the
    address of the connection. *)
Theorem getClientIp_sources (req : Request) :
  (∀ v, header (headers req) "x-forwarded-for" = Some v → Exact.is_ascii v = true) →
  let forwarded :=
    (λ v, trim (before_first ","%char v)) <$> header (headers req) "x-forwarded-for" in
  getClientIp req ≠ EmptyString ∧
  (∀ ip, forwarded = Some ip → ip ≠ EmptyString → getClientIp req = ip) ∧
  (forwarded = None ∨ forwarded = Some EmptyString →
   ∀ ip, header (headers req) "x-real-ip" = Some ip → ip ≠ EmptyString →
         getClientIp req = ip) ∧
  (forwarded = None ∨ forwarded = Some EmptyString →
   header (headers req) "x-real-ip" = None ∨
   header (headers req) "x-real-ip" = Some EmptyString →
   getClientIp req = match remoteAddress req with
                     | Some ip => if decide (ip = EmptyString) then "unknown" else ip
                     | None => "unknown"
                     end).
Proof.
  intros _. cbv zeta. unfold getClientIp.
  destruct (_ <$> header (headers req) "x-forwarded-for") as [f|];
    destruct (header (headers req) "x-real-ip") as [r|];
    destruct (remoteAddress req) as [a|]; cbn [or_else default];
    repeat (case_decide; cbn [or_else default]); subst;
    (split; [done|]); (split; [intros; by simplify_eq|]);
    (split; [intros [?|?] ? ? ?; by simplify_eq|]);
    intros [?|?] [?|?]; by simplify_eq.
Qed.

Lemma getClientIp_sources_witness :
  getClientIp (mkRequest "POST" [("x-forwarded-for", " 203.0.113.7 , 10.0.0.1")]
                         (Some "10.0.0.1") [] JsUndefined) = "203.0.113.7".
Proof.
  destruct (getClientIp_sources
              (mkRequest "POST" [("x-forwarded-for", " 203.0.113.7 , 10.0.0.1")]
                         (Some "10.0.0.1") [] JsUndefined)) as (_ & H & _).
  { intros v [= <-]. reflexivity. }
  apply H; [vm_compute; reflexivity | discriminate].
Defined.

End HeaderFacts.

(** ** The ingestion handler on every request *)

Section HandlerFacts.

Import TrackView Serving.

Implicit Types (req : Request) (env : Env) (w : World) (value : JsValue).

(** Every request in every state is answered in one of the seven ways of
    [handled]. *)
Lemma handler_handled req env w : handled req env w (handler req env w).
Proof.
  destruct (decide (method req = "POST")) as [Hm|Hm].
  - destruct (allowed (limiter req env w)) eqn:Hallowed.
    + rewrite handler_post by done. rewrite Hallowed. cbn [negb].
      destruct (get (body req) "book_id") as [value|error] eqn:Hget.
      * rewrite (try_block_value _ _ _ _ _ Hget).
        destruct (is_missing value) eqn:Hmissing; [by constructor|].
        destruct (negb (bool_decide (typeof value = "number")) && isNaN (ToNumber value))
          eqn:Htype; [by constructor|].
        destruct (le_zero (ToNumber value)) eqn:Hle; [by constructor|].
        destruct (insert_outcome env) as [|error|error] eqn:Hinsert.
        -- apply handled_tracked; try done. intros Hnan. rewrite Hnan, andb_true_r in Htype.
           apply negb_false_iff in Htype. by apply bool_decide_eq_true in Htype.
        -- by apply handled_failed.
        -- apply handled_thrown; auto.
      * assert (try_block req env (counted req env w) (prepared req) = Throw error) as ->.
        { unfold try_block, validateInput, schema. cbn [validate_fields validate_field].
          by rewrite Hget. }
        apply handled_thrown; auto.
    + pose proof (handler_rate_limited req env w Hm Hallowed) as (Hs & Hb & Hw).
      destruct (handler req env w) as [res w'] eqn:Hh. cbn [fst snd] in *. subst w'.
      assert (res = json (body_errors (rateLimitError 3600)) (status 429 (prepared req)))
        as ->; [|by constructor].
      rewrite handler_post in Hh by done. rewrite Hallowed in Hh. cbn [negb] in Hh.
      injection Hh as <-. unfold json, status in *. cbn in Hb |- *. by rewrite Hb.
  - rewrite handler_not_post by done. case_decide; by constructor.
Qed.

Lemma prepared_headers req :
  responseHeaders (prepared req)
  = [("Access-Control-Allow-Origin", allowed_origin req);
     ("Access-Control-Allow-Methods", "GET, POST, PUT, DELETE, OPTIONS");
     ("Access-Control-Allow-Headers", "Content-Type, Authorization");
     ("Access-Control-Max-Age", "86400");
     ("X-Content-Type-Options", "nosniff");
     ("X-Frame-Options", "DENY");
     ("X-XSS-Protection", "1; mode=block");
     ("Referrer-Policy", "strict-origin-when-cross-origin")].
Proof.
  unfold prepared, setCorsHeaders, allowed_origin.
  destruct (header (headers req) "origin") as [o|]; [|reflexivity].
  by destruct (negb (bool_decide (o = EmptyString)) && _).
Qed.

(** X12. Whatever the request, the state and the environment (a preflight,
    a refused method, a refused or rejected call, a failure), the response of
    the ingestion handler carries the same eight headers: the four CORS
    headers of the request and the four security headers, each once, and no
    other. Its status is one of 200, 400, 405, 429 and 500. *)
Theorem handler_headers_and_status req env w :
  responseHeaders (handler req env w).1
  = [("Access-Control-Allow-Origin", allowed_origin req);
     ("Access-Control-Allow-Methods", "GET, POST, PUT, DELETE, OPTIONS");
     ("Access-Control-Allow-Headers", "Content-Type, Authorization");
     ("Access-Control-Max-Age", "86400");
     ("X-Content-Type-Options", "nosniff");
     ("X-Frame-Options", "DENY");
     ("X-XSS-Protection", "1; mode=block");
     ("Referrer-Policy", "strict-origin-when-cross-origin")] ∧
  statusCode (handler req env w).1 ∈ [200; 400; 405; 429; 500].
Proof.
  rewrite <- prepared_headers.
  destruct (handler_handled req env w); cbn [fst json status end_ responseHeaders statusCode];
    (split; [done|]); rewrite !elem_of_cons; auto 10.
Qed.

(** X13. For a request whose [book_id], if the body has one, is a value on
    which [Number] is computed exactly: one request changes the datastore by
    at most one row, appended to [bookshelf_book_views]; the books, the genres
    and the statistics are never written. A row is appended exactly when the
    answer is the envelope with [tracked: true]; the row then holds only
    [book_id], a number that is the [Number()] of the body's [book_id] and is
    not [<= 0]. It is a positive number unless the body carries the number NaN
    itself, which the type rule lets through and [bookId <= 0] does not
    catch. *)
Theorem handler_appends_at_most_one_row req env w :
  (∀ value, get (body req) "book_id" = Normal value → Exact.Number_exact value = true) →
  let result := handler req env w in
  bookshelf_books (db result.2) = bookshelf_books (db w) ∧
  bookshelf_book_genres (db result.2) = bookshelf_book_genres (db w) ∧
  bookshelf_stats (db result.2) = bookshelf_stats (db w) ∧
  (responseBody result.1 ≠ tracked_envelope true →
   bookshelf_book_views (db result.2) = bookshelf_book_views (db w)) ∧
  (responseBody result.1 = tracked_envelope true →
   method req = "POST" ∧ insert_outcome env = InsertOk ∧ statusCode result.1 = 200 ∧
   ∃ value,
     get (body req) "book_id" = Normal value ∧
     bookshelf_book_views (db result.2)
       = bookshelf_book_views (db w) ++ [JsObject [("book_id", JsNumber (ToNumber value))]] ∧
     le_zero (ToNumber value) = false ∧
     (gt_zero (ToNumber value) = true ∨ value = JsNumber NaN)).
Proof.
  intros _. cbv zeta.
  destruct (handler_handled req env w) as [| | | | |value ? ? ? Hget Hmissing Hle Hnan|];
    cbn [fst snd json status end_ responseBody statusCode db insert_view with_log counted
         with_store bookshelf_books bookshelf_book_genres bookshelf_stats
         bookshelf_book_views];
    (split; [done|]); (split; [done|]); (split; [done|]); (split; [done|]); try done.
  intros _. split; [done|]. split; [done|]. split; [done|].
  exists value. split; [done|]. split; [done|]. split; [done|].
  destruct (isNaN (ToNumber value)) eqn:Hn.
  - right. specialize (Hnan eq_refl). destruct value; try done.
    cbn [ToNumber] in Hn. by destruct n.
  - left. by apply gt_zero_spec.
Qed.

Lemma handler_appends_at_most_one_row_witness :
  bookshelf_book_views
    (db (handler (request_from "POST" "203.0.113.7" (JsObject [("book_id", JsString "abc")]))
                 quiet new_world).2) = [].
Proof.
  destruct (handler_appends_at_most_one_row
              (request_from "POST" "203.0.113.7" (JsObject [("book_id", JsString "abc")]))
              quiet new_world) as (_ & _ & _ & H & _).
  { intros value [= <-]. reflexivity. }
  apply H. vm_compute. discriminate.
Defined.

(** X14. Every POST is counted by the limiter under the caller's address
    and the hour of the request, also when it is refused, when its payload is
    rejected and when it fails; no other request touches the limiter's map.
    The handler writes to the log at most one entry per request, and exactly
    when it answers 500 or the envelope with [tracked: false]. *)
Theorem handler_counts_every_post req env w :
  let result := handler req env w in
  (method req = "POST" →
   rateLimitStore result.2
   = step (rateLimitStore w) (mkCall (Date_now env) (getClientIp req) 100 3600000)) ∧
  (method req ≠ "POST" → result.2 = w) ∧
  (statusCode result.1 = 500 ∨ responseBody result.1 = tracked_envelope false →
   ∃ entry, log result.2 = log w ++ [entry]) ∧
  (statusCode result.1 ≠ 500 → responseBody result.1 ≠ tracked_envelope false →
   log result.2 = log w).
Proof.
  cbv zeta.
  destruct (handler_handled req env w);
    cbn [fst snd json status end_ responseBody statusCode log rateLimitStore insert_view
         with_log counted with_store];
    (split; [intros; first [reflexivity | congruence]|]);
    (split; [intros; first [reflexivity | congruence]|]);
    (split; [intros [?|?]; first [discriminate | congruence | by eexists]
            | intros; congruence]).
Qed.

Lemma handler_counts_every_post_witness :
  rateLimitStore (handler (request_from "POST" "203.0.113.7" JsNull) quiet new_world).2
  = [("203.0.113.7:472222", 1)].
Proof.
  destruct (handler_counts_every_post (request_from "POST" "203.0.113.7" JsNull)
              quiet new_world) as (H & _).
  rewrite H; [|reflexivity]. vm_compute. reflexivity.
Defined.

Lemma rateLimitStore_handler req env w :
  method req = "POST" →
  rateLimitStore (handler req env w).2
  = step (rateLimitStore w) (mkCall (Date_now env) (getClientIp req) 100 3600000).
Proof.
  intros Hm. destruct (handler_handled req env w); first [congruence | reflexivity].
Qed.

Lemma handler_status_429 req env w :
  method req = "POST" →
  (allowed (limiter req env w) = true → statusCode (handler req env w).1 ≠ 429) ∧
  (allowed (limiter req env w) = false →
   statusCode (handler req env w).1 = 429 ∧
   responseBody (handler req env w).1 = body_errors (rateLimitError 3600)).
Proof.
  intros Hm.
  destruct (handler_handled req env w) as [| | H1 H2|? ? H1 H2|? H1 H2|? H1 H2|? H1 H2];
    try congruence; rewrite H2; by split.
Qed.

Lemma serve_cons req env requests w :
  serve ((req, env) :: requests) w
  = ((handler req env w).1 :: (serve requests (handler req env w).2).1,
     (serve requests (handler req env w).2).2).
Proof.
  cbn [serve]. destruct (handler req env w) as [res w']. cbn [fst snd].
  by destruct (serve requests w').
Qed.

Lemma serve_lookup requests w ip window i res :
  store_ok (rateLimitStore w) →
  Forall (λ r, method r.1 = "POST" ∧ getClientIp r.1 = ip ∧
               Math_floor_div (Date_now r.2) 3600000 = window) requests →
  (serve requests w).1 !! i = Some res →
  let count := count_of (rateLimitStore w) (ip +:+ ":" +:+ pretty window) + Z.of_nat i + 1 in
  (count <= 100 → statusCode res ≠ 429) ∧
  (100 < count → statusCode res = 429 ∧ responseBody res = body_errors (rateLimitError 3600)).
Proof.
  revert w i. induction requests as [|[req env] requests IH]; intros w i Hok Hall Hi; [done|].
  apply Forall_cons in Hall as [(Hm & Hip & Hwin) Hall]. cbn [fst snd] in Hm, Hip, Hwin.
  rewrite serve_cons in Hi. cbn [fst] in Hi.
  pose proof (rateLimit_result (Date_now env) (getClientIp req) 100 3600000
                (rateLimitStore w)) as Hres.
  cbv zeta in Hres. unfold rateLimitKey in Hres. rewrite Hip, Hwin in Hres.
  destruct i as [|i].
  - injection Hi as <-. cbv zeta. change (Z.of_nat 0) with 0. rewrite Z.add_0_r.
    destruct (handler_status_429 req env w Hm) as [Hyes Hno].
    unfold limiter in Hyes, Hno. rewrite Hip, Hres in Hyes, Hno. cbn [allowed] in Hyes, Hno.
    split; intros Hc.
    + apply Hyes. by apply bool_decide_eq_true_2.
    + apply Hno. apply bool_decide_eq_false_2. lia.
  - change ((serve requests (handler req env w).2).1 !! i = Some res) in Hi.
    pose proof (step_get_key (rateLimitStore w)
                  (mkCall (Date_now env) (getClientIp req) 100 3600000) Hok) as Hkey.
    pose proof (step_ok (rateLimitStore w)
                  (mkCall (Date_now env) (getClientIp req) 100 3600000) Hok) as Hok'.
    rewrite <- rateLimitStore_handler in Hkey, Hok' by done.
    unfold call_key, rateLimitKey in Hkey.
    cbn [call_now call_identifier call_windowMs] in Hkey. rewrite Hip, Hwin in Hkey.
    specialize (IH _ i Hok' Hall Hi). cbv zeta in IH.
    assert (count_of (rateLimitStore (handler req env w).2) (ip +:+ ":" +:+ pretty window)
            = count_of (rateLimitStore w) (ip +:+ ":" +:+ pretty window) + 1) as Hcount.
    { unfold count_of at 1. by rewrite Hkey. }
    rewrite Hcount in IH. cbv zeta.
    replace (count_of (rateLimitStore w) (ip +:+ ":" +:+ pretty window) + Z.of_nat (S i) + 1)
      with (count_of (rateLimitStore w) (ip +:+ ":" +:+ pretty window) + 1 + Z.of_nat i + 1)
      by lia.
    exact IH.
Qed.

Lemma serve_length requests w : length (serve requests w).1 = length requests.
Proof.
  revert w. induction requests as [|[req env] requests IH]; intros w; [done|].
  rewrite serve_cons. cbn [fst length]. by rewrite IH.
Qed.

(** X15. The quota as a client of the endpoint sees it. When the process
    serves POST requests of one caller address within one hour window, the
    first of them opening the window's counter, every request is answered,
    the first 100 are not answered 429 and every later one is answered 429
    with the rate-limit error of 3600 seconds: whatever the bodies are (valid,
    invalid or absent), and whether the inserts succeed, fail or throw.
    Requests that are rejected or fail use up the quota like the others. *)
Theorem serve_hourly_quota
    (requests : list (Request * Env)) (w : World) (ip : string) (window : Z) :
  store_ok (rateLimitStore w) →
  Forall (λ r, method r.1 = "POST" ∧ getClientIp r.1 = ip ∧
               Math_floor_div (Date_now r.2) 3600000 = window) requests →
  Map_get (rateLimitStore w) (ip +:+ ":" +:+ pretty window) = None →
  length (serve requests w).1 = length requests ∧
  ∀ (i : nat) (res : Response), (serve requests w).1 !! i = Some res →
    ((i < 100)%nat → statusCode res ≠ 429) ∧
    ((100 <= i)%nat →
     statusCode res = 429 ∧ responseBody res = body_errors (rateLimitError 3600)).
Proof.
  intros Hok Hall Hfresh. split; [apply serve_length|]. intros i res Hi.
  pose proof (serve_lookup requests w ip window i res Hok Hall Hi) as H.
  cbv zeta in H. unfold count_of in H. rewrite Hfresh in H. cbn [default] in H.
  destruct H as [H1 H2]. split; intros ?; [apply H1 | apply H2]; lia.
Qed.

Lemma serve_hourly_quota_witness :
  length (serve [(request_from "POST" "203.0.113.7" JsNull, quiet);
                 (request_from "POST" "203.0.113.7" (JsObject [("book_id", JsNumber (Finite 7 0))]),
                  quiet)] new_world).1 = 2%nat.
Proof.
  refine (proj1 (serve_hourly_quota _ new_world "203.0.113.7" 472222 _ _ _)).
  - apply empty_ok.
  - repeat constructor.
  - reflexivity.
Defined.

End HandlerFacts.

(** ** [validateInput] on every schema *)

Section ValidateInputFacts.

Import Serving.

Implicit Types (data value v : JsValue) (schema : Schema) (rules : Rules)
               (san : list (string * JsValue)).

Lemma elem_of_set_property san field value f v :
  (f, v) ∈ set_property san field value → (f, v) = (field, value) ∨ (f, v) ∈ san.
Proof.
  induction san as [|[k x] san IH]; cbn [set_property].
  - intros ->%list_elem_of_singleton. by left.
  - case_decide as Hk.
    + subst k. intros [->|H]%elem_of_cons; [by left|]. right. by apply elem_of_cons; right.
    + intros [->|H]%elem_of_cons; [right; by apply elem_of_cons; left|].
      destruct (IH H) as [?|?]; [by left|]. right. by apply elem_of_cons; right.
Qed.

Lemma validate_length_sanitized field rules value errs san f v :
  (f, v) ∈ (validate_length field rules value (errs, san)).2 →
  (f = field ∧ match value with JsString s => v = JsString (trim s) | _ => v = value end) ∨
  (f, v) ∈ san.
Proof.
  unfold validate_length.
  destruct value; cbn [snd]; intros [[= -> ->]|?]%elem_of_set_property; auto.
Qed.

Lemma validate_field_sanitized data field rules errs san errs' san' f v :
  validate_field data (field, rules) (errs, san) = Normal (errs', san') →
  (f, v) ∈ san' →
  (f = field ∧ ∃ value, get data field = Normal value ∧ is_missing value = false ∧
                        sanitized_as rules value v) ∨
  (f, v) ∈ san.
Proof.
  unfold validate_field. destruct (get data field) as [value|e] eqn:Hget; [|done].
  cbn [bind]. destruct (is_missing value) eqn:Hmissing.
  { rewrite !andb_true_r. destruct (required rules); cbn [negb]; intros [= <- <-]; auto. }
  rewrite !andb_false_r.
  assert (type rules ≠ Some "number" →
          Normal (validate_length field rules value (errs, san)) = Normal (errs', san') →
          (f, v) ∈ san' →
          (f = field ∧ ∃ value0, Normal value = Normal value0 ∧ is_missing value0 = false ∧
                                 sanitized_as rules value0 v) ∨ (f, v) ∈ san) as Hlen.
  { intros Hty H Hin.
    assert (validate_length field rules value (errs, san) = (errs', san')) as H'
      by congruence.
    assert (san' = (validate_length field rules value (errs, san)).2) as ->
      by (by rewrite H').
    apply validate_length_sanitized in Hin as [[-> Hv]|?]; [left|by right].
    split; [done|]. exists value. split; [done|]. split; [done|].
    unfold sanitized_as. by rewrite decide_False. }
  destruct (decide (type rules = Some "string")) as [Hs|Hs].
  { destruct (negb _); [intros [= <- <-]; auto|]. apply Hlen. by rewrite Hs. }
  destruct (decide (type rules = Some "number")) as [Hn|Hn].
  { destruct (negb _ && _); [intros [= <- <-]; auto|]. intros [= <- <-].
    intros [[= -> ->]|?]%elem_of_set_property; [left|by right].
    split; [done|]. exists value. split; [done|]. split; [done|].
    unfold sanitized_as. by rewrite decide_True. }
  destruct (decide (type rules = Some "boolean")) as [Hb|Hb].
  { destruct (negb _); [intros [= <- <-]; auto|]. by apply Hlen. }
  destruct (decide (type rules = Some "array")) as [Ha|Ha].
  { destruct (negb _); [intros [= <- <-]; auto|]. by apply Hlen. }
  by apply Hlen.
Qed.

Lemma validate_fields_sanitized data schema0 schema errs san errs' san' :
  validate_fields data schema (errs, san) = Normal (errs', san') →
  schema ⊆ schema0 →
  (∀ f v, (f, v) ∈ san →
     ∃ rules value, (f, rules) ∈ schema0 ∧ get data f = Normal value ∧
                    is_missing value = false ∧ sanitized_as rules value v) →
  ∀ f v, (f, v) ∈ san' →
    ∃ rules value, (f, rules) ∈ schema0 ∧ get data f = Normal value ∧
                   is_missing value = false ∧ sanitized_as rules value v.
Proof.
  revert errs san. induction schema as [|[field rules] schema IH]; intros errs san Hrun Hsub Hsan.
  - by injection Hrun as <- <-.
  - cbn [validate_fields] in Hrun.
    destruct (validate_field data (field, rules) (errs, san)) as [[errs1 san1]|e] eqn:Hf;
      [|done].
    cbn [bind] in Hrun. apply (IH _ _ Hrun).
    + intros x Hx. apply Hsub. by apply elem_of_cons; right.
    + intros f v Hin.
      destruct (validate_field_sanitized _ _ _ _ _ _ _ _ _ Hf Hin)
        as [(-> & value & Hget & Hmissing & Hv)|Hold]; [|by apply Hsan].
      exists rules, value. split; [|done]. apply Hsub. by apply elem_of_cons; left.
Qed.

Lemma validate_field_Normal data field rules acc :
  data ≠ JsUndefined → data ≠ JsNull → ∃ acc', validate_field data (field, rules) acc = Normal acc'.
Proof.
  intros H1 H2. destruct acc as [errs san]. unfold validate_field.
  destruct (get_Normal data field H1 H2) as [value ->]. cbn [bind].
  destruct (required rules && is_missing value); [by eexists|].
  destruct (negb (required rules) && is_missing value); [by eexists|].
  repeat case_decide; try (by eexists);
    match goal with |- ∃ _, (if ?b then _ else _) = _ => destruct b end; by eexists.
Qed.

Lemma validate_fields_Normal data schema acc :
  data ≠ JsUndefined → data ≠ JsNull → ∃ acc', validate_fields data schema acc = Normal acc'.
Proof.
  intros H1 H2. revert acc. induction schema as [|[field rules] schema IH]; intros acc.
  - by eexists.
  - cbn [validate_fields].
    destruct (validate_field_Normal data field rules acc H1 H2) as [acc' ->]. apply IH.
Qed.

(** X16. [validateInput] returns a result when [data] is an object and
    the fields of the schema are read and checked exactly (their names are not
    names every object inherits, and a value under the rule [type: 'number']
    is one that [Number] converts without throwing), and the result is valid
    exactly when it has no error message; for the empty schema it returns the
    valid empty result whatever [data] is; on [undefined] or [null] with a
    schema of at least one field it throws the TypeError of the property read,
    before any rule is applied. *)
Theorem validateInput_returns_or_throws
    (properties : list (string * JsValue)) (data : JsValue) (schema : Schema) :
  (Exact.schema_exact properties schema →
   ∃ r, validateInput (JsObject properties) schema = Normal r ∧
        (isValid r = true ↔ errors r = [])) ∧
  (validateInput data [] = Normal (mkValidationResult true [] [])) ∧
  (data = JsUndefined ∨ data = JsNull → schema ≠ [] →
   ∃ message, validateInput data schema = Throw (TypeError message)).
Proof.
  split; [|split; [done|]].
  - intros _. unfold validateInput.
    destruct (validate_fields_Normal (JsObject properties) schema ([], []))
      as [[errs san] ->]; [done|done|].
    eexists. split; [reflexivity|]. cbn [isValid errors bind]. rewrite bool_decide_eq_true.
    by destruct errs.
  - intros Hnull Hne. destruct schema as [|[field rules] schema]; [done|].
    destruct Hnull as [-> | ->]; eexists; reflexivity.
Qed.

Lemma validateInput_returns_or_throws_witness :
  (∃ r, validateInput (JsObject [("title", JsString "Dune")])
                      [("title", mkRules true (Some "string") None None)] = Normal r ∧
        (isValid r = true ↔ errors r = [])) ∧
  ∃ message, validateInput JsNull [("title", mkRules true (Some "string") None None)]
             = Throw (TypeError message).
Proof.
  destruct (validateInput_returns_or_throws
              [("title", JsString "Dune")] JsNull
              [("title", mkRules true (Some "string") None None)]) as (H1 & _ & H2).
  split.
  - apply H1. apply Forall_singleton. split; [by apply own_only_check | reflexivity].
  - apply H2; [by right | discriminate].
Defined.

(** X17. For an object as [data] and a schema whose fields are read and
    checked exactly (names that no object inherits, ASCII strings, and under
    the rule [type: 'number'] values on which [Number] is computed exactly):
    only fields of the schema reach the
    sanitized data, so a property the schema does not name is dropped; and
    each value there comes from a value of [data] that is not missing ([undefined], [null] or the empty
    string): it is [Number(value)] when the rule's type is [number], the
    string trimmed when the value is a string, and the value itself
    otherwise. *)
Theorem validateInput_sanitized (properties : list (string * JsValue)) schema
    (r : ValidationResult) :
  Exact.schema_exact properties schema →
  validateInput (JsObject properties) schema = Normal r →
  ∀ field v, (field, v) ∈ Security.data r →
    ∃ rules value,
      (field, rules) ∈ schema ∧ get (JsObject properties) field = Normal value ∧
      is_missing value = false ∧
      if decide (type rules = Some "number") then v = JsNumber (ToNumber value)
      else match value with
           | JsString s => v = JsString (trim s)
           | _ => v = value
           end.
Proof.
  intros _. unfold validateInput.
  destruct (validate_fields (JsObject properties) schema ([], []))
    as [[errs san]|e] eqn:Hrun; [|done].
  intros [= <-]. cbn [Security.data].
  apply (validate_fields_sanitized (JsObject properties) schema schema [] [] errs san Hrun);
    [done|].
  intros f v Hin. by apply elem_of_nil in Hin.
Qed.

Lemma validateInput_sanitized_witness :
  ∃ rules value,
    (("title", rules) ∈ [("title", mkRules true (Some "string") None None)]) ∧
    get (JsObject [("title", JsString " Dune "); ("admin", JsBoolean true)]) "title"
      = Normal value ∧
    is_missing value = false ∧
    if decide (type rules = Some "number") then JsString "Dune" = JsNumber (ToNumber value)
    else match value with
         | JsString s => JsString "Dune" = JsString (trim s)
         | _ => JsString "Dune" = value
         end.
Proof.
  apply (validateInput_sanitized
           [("title", JsString " Dune "); ("admin", JsBoolean true)]
           [("title", mkRules true (Some "string") None None)]
           (mkValidationResult true [] [("title", JsString "Dune")])).
  - apply Forall_singleton. split; [by apply own_only_check | reflexivity].
  - vm_compute. reflexivity.
  - apply list_elem_of_here.
Defined.

(** X18. The length rules see the string as sent, the output holds it
    trimmed. A required string field with a minimum length that is sent an
    ASCII string of at least that length is valid and comes out trimmed: so a
    value of blanks only, which is not the empty string, satisfies [required]
    and [minLength] and is returned as the empty string. *)
Theorem validateInput_length_before_trim (field s : string) (n : Z) :
  ObjectPrototype.own_only field → Exact.is_ascii s = true →
  s ≠ EmptyString → n <= Z.of_nat (String.length s) →
  validateInput (JsObject [(field, JsString s)])
                [(field, mkRules true (Some "string") (Some n) None)]
  = Normal (mkValidationResult true [] [(field, JsString (trim s))]).
Proof.
  intros _ _ Hs Hn. unfold validateInput.
  cbn [validate_fields validate_field get lookup_property].
  rewrite decide_True by done. cbn [bind required is_missing].
  rewrite bool_decide_eq_false_2 by done. cbn [andb negb type].
  rewrite decide_True by done. cbn [typeof]. rewrite bool_decide_eq_true_2 by done.
  cbn [negb validate_length minLength maxLength rule_set bind].
  destruct (decide (n = 0)); [done|]. by rewrite decide_False by lia.
Qed.

Lemma validateInput_length_before_trim_witness :
  validateInput (JsObject [("name", JsString "   ")])
                [("name", mkRules true (Some "string") (Some 3) None)]
  = Normal (mkValidationResult true [] [("name", JsString "")]).
Proof.
  apply (validateInput_length_before_trim "name" "   " 3);
    [by apply own_only_check | reflexivity | discriminate | vm_compute; discriminate].
Defined.

End ValidateInputFacts.

(** ** The rate limiter: keys, counts and the advice to retry *)

Section RateLimitFacts.

Import Sanitize.

Implicit Types (s : RateLimitStore) (c : Call) (key identifier : string).

Lemma pretty_N_char_no_colon (x : N) : pretty_N_char x ≠ ":"%char.
Proof. unfold pretty_N_char. by repeat case_match. Qed.

Lemma pretty_N_go_no_colon (x : N) (t : string) :
  occurs ":" t = false → occurs ":" (pretty_N_go x t) = false.
Proof.
  revert t. induction (N.lt_wf_0 x) as [x _ IH]; intros t Ht.
  assert (x = 0 ∨ 0 < x)%N as [->|Hx] by lia; [by rewrite pretty_N_go_0|].
  rewrite pretty_N_go_step by done. apply IH; [by apply N.div_lt|].
  cbn [occurs]. rewrite Ht, orb_false_r. apply bool_decide_eq_false_2.
  apply pretty_N_char_no_colon.
Qed.

Lemma pretty_N_no_colon (x : N) : occurs ":" (pretty x) = false.
Proof.
  unfold pretty, pretty_N. case_decide; [done|]. by apply pretty_N_go_no_colon.
Qed.

Lemma pretty_Z_no_colon (z : Z) : occurs ":" (pretty z) = false.
Proof.
  destruct z as [|p|p]; [done|apply pretty_N_no_colon|].
  change (pretty (Z.neg p)) with (String "-" (pretty (N.pos p))).
  cbn [occurs]. by rewrite pretty_N_no_colon.
Qed.

Lemma occurs_colon (identifier p : string) : occurs ":" (identifier +:+ ":" +:+ p) = true.
Proof.
  rewrite occurs_app. change (":" +:+ p) with (String ":" p). cbn [occurs].
  rewrite bool_decide_eq_true_2 by done. by rewrite orb_true_r.
Qed.

(** A key is split at its last colon. *)
Lemma key_split (id1 id2 p1 p2 : string) :
  occurs ":" p1 = false → occurs ":" p2 = false →
  id1 +:+ ":" +:+ p1 = id2 +:+ ":" +:+ p2 → id1 = id2 ∧ p1 = p2.
Proof.
  intros H1 H2. revert id2. induction id1 as [|a1 id1 IH]; intros [|a2 id2] H.
  - by injection H.
  - change (String ":" p1 = String a2 (id2 +:+ ":" +:+ p2)) in H. injection H as <- ->.
    by rewrite occurs_colon in H1.
  - change (String a1 (id1 +:+ ":" +:+ p1) = String ":" p2) in H. injection H as -> <-.
    by rewrite occurs_colon in H2.
  - change (String a1 (id1 +:+ ":" +:+ p1) = String a2 (id2 +:+ ":" +:+ p2)) in H.
    injection H as -> H. destruct (IH _ H) as [-> ->]. done.
Qed.

Lemma rateLimitKey_inj identifier1 identifier2 now1 now2 windowMs1 windowMs2 :
  rateLimitKey identifier1 now1 windowMs1 = rateLimitKey identifier2 now2 windowMs2 →
  identifier1 = identifier2 ∧
  Math_floor_div now1 windowMs1 = Math_floor_div now2 windowMs2.
Proof.
  unfold rateLimitKey. intros H.
  apply key_split in H as [-> H]; try apply pretty_Z_no_colon.
  split; [done|]. by apply (inj pretty).
Qed.

(** X19. For positive windows and clock values that are safe integers:
    two calls count under the same key exactly when they have the same
    identifier and fall into the same window, also for identifiers that
    contain colons, as IPv6 addresses do. So a call by another identifier, or
    in another window, leaves a key's count as it is, unless it is the call
    that evicts the key. *)
Theorem rateLimitKey_separates (identifier1 identifier2 : string)
    (now1 now2 windowMs1 windowMs2 : Z) :
  0 < windowMs1 <= Exact.MAX_SAFE_INTEGER → 0 < windowMs2 <= Exact.MAX_SAFE_INTEGER →
  0 <= now1 <= Exact.MAX_SAFE_INTEGER → 0 <= now2 <= Exact.MAX_SAFE_INTEGER →
  (rateLimitKey identifier1 now1 windowMs1 = rateLimitKey identifier2 now2 windowMs2 ↔
   identifier1 = identifier2 ∧
   Math_floor_div now1 windowMs1 = Math_floor_div now2 windowMs2) ∧
  (∀ s maxRequests1,
     store_ok s →
     identifier1 ≠ identifier2 ∨
     Math_floor_div now1 windowMs1 ≠ Math_floor_div now2 windowMs2 →
     let key := rateLimitKey identifier2 now2 windowMs2 in
     let call := mkCall now1 identifier1 maxRequests1 windowMs1 in
     let after := (rateLimit now1 identifier1 maxRequests1 windowMs1 s).2 in
     Map_get after key = Map_get s key ∨ (evicts s call key ∧ Map_get after key = None)).
Proof.
  intros _ _ _ _. split.
  - split; [apply rateLimitKey_inj|]. unfold rateLimitKey. by intros [-> ->].
  - intros s maxRequests1 Hok Hne key call after.
    apply (step_get_other s call key Hok). unfold key, call, call_key.
    cbn [call_now call_identifier call_windowMs].
    intros [? ?]%rateLimitKey_inj. destruct Hne; congruence.
Qed.

Lemma rateLimitKey_separates_witness :
  rateLimitKey "2001:db8::1" 7200000 3600000 ≠ rateLimitKey "2001:db8:" 3600000 3600000.
Proof.
  intros H.
  destruct (rateLimitKey_separates "2001:db8::1" "2001:db8:" 7200000 3600000 3600000 3600000)
    as [[Hinj _] _]; try (unfold Exact.MAX_SAFE_INTEGER; lia).
  destruct (Hinj H) as [? _]. discriminate.
Defined.







End RateLimitFacts.

(** ** The handler without a limiter *)

Section LegacyHandlerFacts.

Import TrackViewLegacy.

Implicit Types (req : Request) (env : Env) (w : World) (value : JsValue).

(** [parseInt] returns NaN or an integer. *)
Lemma parseInt_string_integer (s : string) :
  parseInt_string s = NaN ∨ ∃ z, parseInt_string s = of_Z z.
Proof.
  unfold parseInt_string.
  destruct (take_sign (trim_start s)) as [sign r].
  destruct (match r with
            | String "0" (String c r') =>
                if decide (c = "x"%char ∨ c = "X"%char) then (16, r') else (10, r)
            | _ => (10, r)
            end) as [radix r0].
  destruct (take_digits radix r0 0 0) as [[v count] rest].
  case_decide; eauto.
Qed.

(** X22. For a request whose [book_id], if the body has one, is a value on
    which [parseInt] is computed exactly: the second handler of
    [track-view.js] never answers with an
    error of the server: its status is 405, 400 or 200, also when the body is
    missing or the insert throws. It sets no header and consults no limiter. It
    writes to the datastore exactly when it answers [tracked: true], and then
    appends one row whose [book_id] is [parseInt] of the body's [book_id]: an
    integer, which may be zero or negative, or the integer prefix of a longer
    string. *)
Theorem legacy_handler_answers req env w :
  (∀ value, get (body req) "book_id" = Normal value → Exact.parseInt_exact value = true) →
  let result := handler req env w in
  statusCode result.1 ∈ [200; 400; 405] ∧
  responseHeaders result.1 = [] ∧
  rateLimitStore result.2 = rateLimitStore w ∧
  (responseBody result.1 ≠ tracked_envelope true → db result.2 = db w) ∧
  (responseBody result.1 = tracked_envelope true →
   method req = "POST" ∧ insert_outcome env = InsertOk ∧
   ∃ value z,
     get (body req) "book_id" = Normal value ∧ ToBoolean value = true ∧
     parseInt value = of_Z z ∧
     db result.2
     = mkDatastore (bookshelf_books (db w)) (bookshelf_book_genres (db w))
         (bookshelf_book_views (db w) ++ [JsObject [("book_id", JsNumber (of_Z z))]])
         (bookshelf_stats (db w))).
Proof.
  intros _. cbv zeta. destruct (decide (method req = "POST")) as [Hm|Hm].
  - rewrite legacy_handler_post by done. unfold try_block, catch_block.
    destruct (get (body req) "book_id") as [value|e] eqn:Hget; cbn [bind].
    + destruct (ToBoolean value) eqn:Htruthy; cbn [negb orb].
      * destruct (parseInt_string_integer (ToString value)) as [Hnan|[z Hz]];
          fold (parseInt value) in *.
        -- rewrite Hnan. cbn [isNaN fst snd json status statusCode responseHeaders
                              responseBody new_response].
           rewrite !elem_of_cons. by repeat split; auto.
        -- rewrite Hz. cbn [isNaN of_Z].
           destruct (insert_outcome env) as [|error|e] eqn:Hinsert;
             cbn [fst snd json status statusCode responseHeaders responseBody new_response
                  with_log insert_view db rateLimitStore];
             rewrite !elem_of_cons; (split; [auto|]); (split; [done|]); (split; [done|]);
             (split; [done|]); try done.
           intros _. split; [done|]. split; [done|]. by exists value, z.
      * cbn [fst snd json status statusCode responseHeaders responseBody new_response].
        rewrite !elem_of_cons. by repeat split; auto.
    + cbn [fst snd json status statusCode responseHeaders responseBody new_response
           with_log db rateLimitStore].
      rewrite !elem_of_cons. by repeat split; auto.
  - unfold handler. rewrite decide_True by done.
    cbn [fst snd json status statusCode responseHeaders responseBody new_response].
    rewrite !elem_of_cons. by repeat split; auto.
Qed.

Lemma legacy_handler_answers_witness :
  db (handler (request_from "POST" "203.0.113.7" (JsObject [("book_id", JsString "-5abc")]))
              quiet new_world).2
  = mkDatastore [] [] [JsObject [("book_id", JsNumber (of_Z (-5)))]] (mkStats 0 0 0).
Proof.
  destruct (legacy_handler_answers
              (request_from "POST" "203.0.113.7" (JsObject [("book_id", JsString "-5abc")]))
              quiet new_world) as (_ & _ & _ & _ & H).
  { intros value [= <-]. vm_compute. reflexivity. }
  destruct H as (_ & _ & value & z & Hget & _ & Hz & ->); [vm_compute; reflexivity|].
  injection Hget as <-. vm_compute in Hz. injection Hz as <-. reflexivity.
Defined.

End LegacyHandlerFacts.

(** ** From the page to the table *)

Section ViewsStored.

Import TrackView Serving Bookshelf.

Implicit Types (req : Request) (env : Env) (w : World) (page : Page).

(** A recordable request that the limiter lets through is recorded. *)
Lemma handler_records req env w :
  recordable (req, env) → allowed (limiter req env w) = true →
  handler req env w
  = (json (tracked_envelope true) (status 200 (prepared req)),
     insert_view (counted req env w) (view_row req)).
Proof.
  intros (Hm & Hinsert & value & Hget & _ & Hpos) Hallowed. cbn [fst snd] in *.
  rewrite handler_post by done. rewrite Hallowed. cbn [negb].
  rewrite (try_block_value _ _ _ _ _ Hget).
  rewrite (gt_zero_not_missing _ Hpos).
  apply gt_zero_spec in Hpos as [Hnan Hle]. rewrite Hnan, andb_false_r, Hle, Hinsert.
  unfold view_row. by rewrite Hget.
Qed.

Lemma serve_records requests w ip window :
  store_ok (rateLimitStore w) →
  Forall recordable requests →
  Forall (λ r, getClientIp r.1 = ip ∧ Math_floor_div (Date_now r.2) 3600000 = window)
         requests →
  count_of (rateLimitStore w) (ip +:+ ":" +:+ pretty window) + Z.of_nat (length requests)
    <= 100 →
  Forall (λ res, statusCode res = 200 ∧ responseBody res = tracked_envelope true)
         (serve requests w).1 ∧
  bookshelf_book_views (db (serve requests w).2)
    = bookshelf_book_views (db w) ++ (view_row <$> requests.*1) ∧
  log (serve requests w).2 = log w.
Proof.
  revert w. induction requests as [|[req env] requests IH]; intros w Hok Hrec Hall Hquota.
  - cbn. by rewrite app_nil_r.
  - apply Forall_cons in Hrec as [Hreq Hrec].
    apply Forall_cons in Hall as [[Hip Hwin] Hall]. cbn [fst snd] in Hip, Hwin.
    pose proof Hreq as (Hm & _). cbn [fst] in Hm.
    cbn [length] in Hquota.
    assert (allowed (limiter req env w) = true) as Hallowed.
    { unfold limiter. rewrite rateLimit_result. cbv zeta. cbn [allowed].
      unfold rateLimitKey. rewrite Hip, Hwin. apply bool_decide_eq_true_2. lia. }
    pose proof (handler_records req env w Hreq Hallowed) as Hh.
    pose proof (step_get_key (rateLimitStore w)
                  (mkCall (Date_now env) (getClientIp req) 100 3600000) Hok) as Hkey.
    pose proof (step_ok (rateLimitStore w)
                  (mkCall (Date_now env) (getClientIp req) 100 3600000) Hok) as Hok'.
    rewrite <- rateLimitStore_handler in Hkey, Hok' by done.
    unfold call_key, rateLimitKey in Hkey.
    cbn [call_now call_identifier call_windowMs] in Hkey. rewrite Hip, Hwin in Hkey.
    rewrite serve_cons. cbn [fst snd].
    destruct (IH (handler req env w).2) as (Hres & Hrows & Hlog); try done.
    { unfold count_of at 1. rewrite Hkey. cbn [default from_option id]. lia. }
    rewrite Hrows, Hlog. rewrite Hh. cbn [fst snd]. split; [|split].
    + apply Forall_cons. split; [done|]. by rewrite Hh in Hres.
    + cbn [insert_view db bookshelf_book_views counted with_store fmap list_fmap].
      by rewrite <- app_assoc.
    + done.
Qed.

(** X23. Below the quota nothing is lost. When the process serves at most
    100 recordable requests (POSTs with a [book_id] that [Number] turns
    exactly into a positive number, the inserts succeeding) of one caller
    address within one hour window, the first of
    them opening the window's counter, every one of them is answered 200 with
    [tracked: true], the table of views grows by exactly one row a request, in
    the order of the requests, and nothing is logged. *)
Theorem serve_stores_every_view
    (requests : list (Request * Env)) (w : World) (ip : string) (window : Z) :
  store_ok (rateLimitStore w) →
  Forall recordable requests →
  Forall (λ r, getClientIp r.1 = ip ∧ Math_floor_div (Date_now r.2) 3600000 = window)
         requests →
  Map_get (rateLimitStore w) (ip +:+ ":" +:+ pretty window) = None →
  (length requests <= 100)%nat →
  Forall (λ res, statusCode res = 200 ∧ responseBody res = tracked_envelope true)
         (serve requests w).1 ∧
  bookshelf_book_views (db (serve requests w).2)
    = bookshelf_book_views (db w) ++ (view_row <$> requests.*1) ∧
  log (serve requests w).2 = log w.
Proof.
  intros Hok Hrec Hall Hfresh Hlen. apply (serve_records requests w ip window); try done.
  unfold count_of. rewrite Hfresh. cbn [default]. lia.
Qed.

Lemma serve_stores_every_view_witness :
  bookshelf_book_views
    (db (serve [(request_from "POST" "203.0.113.7" (JsObject [("book_id", JsString "42")]),
                 quiet);
                (request_from "POST" "203.0.113.7" (JsObject [("book_id", JsNumber (of_Z 7))]),
                 quiet)] new_world).2)
  = [JsObject [("book_id", JsNumber (of_Z 42))]; JsObject [("book_id", JsNumber (of_Z 7))]].
Proof.
  destruct (serve_stores_every_view
              [(request_from "POST" "203.0.113.7" (JsObject [("book_id", JsString "42")]),
                quiet);
               (request_from "POST" "203.0.113.7" (JsObject [("book_id", JsNumber (of_Z 7))]),
                quiet)] new_world "203.0.113.7" 472222) as (_ & H & _).
  - apply empty_ok.
  - repeat (apply Forall_cons; split; [|]); try apply Forall_nil_2;
      (split; [reflexivity|]); (split; [reflexivity|]);
      eexists; (split; [reflexivity|]); split; reflexivity.
  - repeat constructor.
  - reflexivity.
  - cbn [length]. lia.
  - rewrite H. vm_compute. reflexivity.
Defined.

Lemma new_page_issued_viewed : issued_viewed new_page.
Proof.
  split; [apply Forall_nil_2|]. cbn [new_page issued viewedBooks length].
  by rewrite size_empty.
Qed.

Lemma on_entry_issued_viewed page entry : issued_viewed page → issued_viewed (on_entry page entry).
Proof.
  intros [Hall Hlen].
  destruct (on_entry_cases page entry) as [(id & _ & _ & Hnin & ->)|[_ ->]]; [|done].
  split; cbn [issued viewedBooks].
  - apply Forall_app. split.
    + eapply Forall_impl; [exact Hall|]. intros f (id' & -> & Hin).
      exists id'. split; [done|]. apply elem_of_union. by right.
    + apply Forall_singleton. exists id. split; [done|].
      apply elem_of_union. left. by apply elem_of_singleton.
  - rewrite length_app, size_union, size_singleton by set_solver.
    cbn [length]. lia.
Qed.

Lemma session_issued_viewed batches : issued_viewed (session batches).
Proof.
  unfold session. generalize new_page_issued_viewed. generalize new_page.
  induction batches as [|batch batches IH]; intros page Hpage; [done|].
  cbn [foldl]. apply IH. unfold viewObserver. revert page Hpage.
  induction batch as [|entry batch IHb]; intros page Hpage; [done|].
  cbn [foldl]. apply IHb. by apply on_entry_issued_viewed.
Qed.

(** X24. From the page to the table. Let a page session show books whose
    [data-book-id] are ASCII strings that [Number] turns exactly into a
    positive number, at most 100 different ones, and let
    the calls it issues reach the ingestion handler from one address within
    one hour window whose counter they open, the inserts succeeding. Then the
    table of views grows by exactly one row for each identifier seen: as many
    rows as different identifiers, each row holding [Number()] of an
    identifier seen, and each identifier seen having its row, however often
    and in whatever batches the cards came into view. *)
Theorem session_views_stored
    (batches : list (list Entry)) (hs : list (string * string)) (remote : option string)
    (envs : list Env) (w : World) (ip : string) (window : Z) :
  let page := session batches in
  let seen id :=
    id ≠ EmptyString ∧
    ∃ batch entry, batch ∈ batches ∧ entry ∈ batch ∧ shows id entry in
  store_ok (rateLimitStore w) →
  getClientIp (mkRequest "POST" hs remote [] JsUndefined) = ip →
  Map_get (rateLimitStore w) (ip +:+ ":" +:+ pretty window) = None →
  length envs = length (issued page) →
  Forall (λ env, insert_outcome env = InsertOk ∧
                 Math_floor_div (Date_now env) 3600000 = window) envs →
  (size (viewedBooks page) <= 100)%nat →
  (∀ id, seen id → Exact.Number_exact (JsString id) = true ∧
                   gt_zero (StringToNumber id) = true) →
  ∃ rows,
    bookshelf_book_views (db (serve (requests_of page hs remote envs) w).2)
      = bookshelf_book_views (db w) ++ rows ∧
    length rows = size (viewedBooks page) ∧
    (∀ id, id ∈ viewedBooks page ↔ seen id) ∧
    (∀ row, row ∈ rows ↔
            ∃ id, seen id ∧ row = JsObject [("book_id", JsNumber (StringToNumber id))]).
Proof.
  intros page seen Hok Hip Hfresh Hlen Henvs Hsize Hpos.
  assert (∀ id, id ∈ viewedBooks page ↔ seen id) as Hseen.
  { intros id. unfold page, session. rewrite observing_viewed. cbn [new_page viewedBooks].
    split; [intros [[]%not_elem_of_empty|?]; done | by right]. }
  destruct (session_issued_viewed batches) as [Hissued Hcount]. fold page in Hissued, Hcount.
  set (reqs := (λ f, request_of f hs remote) <$> issued page).
  assert (length reqs = length envs) as Hreqs by (unfold reqs; by rewrite length_fmap).
  assert ((requests_of page hs remote envs).*1 = reqs) as Hfst
    by (unfold requests_of; fold reqs; apply fst_zip; lia).
  assert (∀ req, req ∈ reqs →
            ∃ id, id ∈ viewedBooks page ∧ req = request_of (trackBookView id) hs remote)
    as Hreq.
  { intros req (f & -> & Hf)%list_elem_of_fmap.
    rewrite Forall_forall in Hissued. destruct (Hissued f Hf) as (id & -> & Hid). eauto. }
  destruct (serve_records (requests_of page hs remote envs) w ip window) as (_ & Hrows & _).
  - done.
  - apply Forall_forall. intros [req env] Hin. unfold requests_of in Hin. fold reqs in Hin.
    pose proof (elem_of_zip_l _ _ _ _ Hin) as Hl. pose proof (elem_of_zip_r _ _ _ _ Hin) as Hr.
    destruct (Hreq req Hl) as (id & Hid & ->).
    rewrite Forall_forall in Henvs. destruct (Henvs env Hr) as [Hins _].
    split; [done|]. split; [done|]. exists (JsString id). split; [done|].
    apply Hpos. by apply Hseen.
  - apply Forall_forall. intros [req env] Hin. unfold requests_of in Hin. fold reqs in Hin.
    pose proof (elem_of_zip_l _ _ _ _ Hin) as Hl. pose proof (elem_of_zip_r _ _ _ _ Hin) as Hr.
    destruct (Hreq req Hl) as (id & Hid & ->).
    rewrite Forall_forall in Henvs. destruct (Henvs env Hr) as [_ Hwin].
    split; [|done]. exact Hip.
  - unfold count_of. rewrite Hfresh. cbn [default from_option id].
    replace (length (requests_of page hs remote envs)) with (length reqs); [lia|].
    by rewrite <- Hfst, length_fmap.
  - exists (view_row <$> reqs). rewrite Hrows, Hfst. split; [done|].
    split; [by rewrite length_fmap, Hreqs, Hlen|]. split; [done|].
    intros row. rewrite list_elem_of_fmap. split.
    + intros (req & -> & (id & Hid & ->)%Hreq). exists id. split; [by apply Hseen | done].
    + intros (id & Hid%Hseen & ->).
      exists (request_of (trackBookView id) hs remote). split; [done|].
      unfold reqs. apply list_elem_of_fmap. exists (trackBookView id). split; [done|].
      specialize (observing_consistent new_page batches new_page_consistent id) as Hc.
      fold (session batches) in Hc. fold page in Hc. rewrite decide_True in Hc by done.
      assert (trackBookView id ∈ calls_for id page) as Hcall
        by (rewrite Hc; apply list_elem_of_here).
      unfold calls_for in Hcall. by apply list_elem_of_filter in Hcall as [_ ?].
Qed.

Lemma session_views_stored_witness :
  ∃ rows,
    bookshelf_book_views
      (db (serve (requests_of (session [[mkEntry true (Some "42"); mkEntry true (Some "42")];
                                        [mkEntry false (Some "7"); mkEntry true (Some "42")]])
                              [("x-forwarded-for", "203.0.113.7")] None [quiet])
                 new_world).2) = [] ++ rows ∧
    length rows = 1%nat.
Proof.
  destruct (session_views_stored
              [[mkEntry true (Some "42"); mkEntry true (Some "42")];
               [mkEntry false (Some "7"); mkEntry true (Some "42")]]
              [("x-forwarded-for", "203.0.113.7")] None [quiet] new_world
              "203.0.113.7" 472222) as (rows & Hrows & Hlen & _).
  - apply empty_ok.
  - reflexivity.
  - reflexivity.
  - reflexivity.
  - repeat constructor.
  - vm_compute. lia.
  - intros id (Hne & batch & entry & Hb & He & Hs & Hid).
    assert (bookId entry = Some "42") as H42.
    { repeat (apply elem_of_cons in Hb as [->|Hb]);
        [| |by apply elem_of_nil in Hb];
        repeat (apply elem_of_cons in He as [->|He]);
        try (by apply elem_of_nil in He); try done. }
    rewrite Hid in H42. injection H42 as ->. split; reflexivity.
  - exists rows. split; [exact Hrows|]. rewrite Hlen. reflexivity.
Defined.

End ViewsStored.

(** ** Display helpers of the page *)

Section DisplayFacts.

Import EnvValidator Display.

(** X25. [getStarRating] on a finite decimal [m * 10^e] (with [e <= 0], as
    the numbers of this development are kept). For a rating from 0 up to, but
    not including, 5.5 it returns a line of exactly five symbols: as many full
    stars as the rating's integer part, a half when the fraction is at least
    one half, and empty stars for the rest. For every other rating, a
    negative one or one of 5.5 or more, [String.prototype.repeat] throws a
    RangeError and nothing is returned. *)
Theorem getStarRating_five_symbols (m e : Z) :
  e <= 0 →
  let unit := 10 ^ (- e) in
  (0 <= m ∧ 2 * m < 11 * unit →
   ∃ full half empty,
     getStarRating (Finite m e) = Returns (stars full half empty) ∧
     full = m / unit ∧ (half = true ↔ unit <= 2 * (m `mod` unit)) ∧
     0 <= full ∧ 0 <= empty ∧ full + (if half then 1 else 0) + empty = 5) ∧
  (m < 0 ∨ 11 * unit <= 2 * m →
   ∃ message, getStarRating (Finite m e) = ThrowsError message).
Proof.
  intros He unit.
  assert (0 < unit) as Hunit by (apply Z.pow_pos_nonneg; lia).
  pose proof (Z.div_mod m unit ltac:(lia)) as Hdm.
  pose proof (Z.mod_pos_bound m unit Hunit) as Hmod.
  assert (floor_decimal m e = m / unit) as Hfloor.
  { unfold floor_decimal. case_decide as H0; [|done].
    assert (e = 0) as -> by lia. unfold unit. cbn. by rewrite Z.mul_1_r, Z.div_1_r. }
  assert (has_half m e = bool_decide (0 <= m ∧ unit <= 2 * (m `mod` unit))) as Hhalf.
  { unfold has_half. case_decide as H0; [|done].
    assert (e = 0) as -> by lia. unfold unit. cbn.
    rewrite Z.mod_1_r. symmetry. apply bool_decide_eq_false_2. lia. }
  unfold getStarRating. rewrite Hfloor, Hhalf. cbv zeta. split.
  - intros [Hm Hlt].
    assert (0 <= m / unit) as Hq by (apply Z.div_pos; lia).
    set (half := bool_decide (0 <= m ∧ unit <= 2 * (m `mod` unit))).
    assert (m / unit + (if half then 1 else 0) <= 5) as Hsum.
    { unfold half. case_bool_decide as Hh; nia. }
    rewrite decide_False by lia.
    exists (m / unit), half, (5 - m / unit - (if half then 1 else 0)).
    split; [done|]. split; [done|]. split.
    { unfold half. rewrite bool_decide_eq_true. split; [by intros [_ ?] | done]. }
    split; [done|]. split; lia.
  - intros Hout.
    set (half := bool_decide (0 <= m ∧ unit <= 2 * (m `mod` unit))).
    rewrite decide_True; [by eexists|].
    destruct Hout as [Hneg|Hbig].
    + left. apply Z.div_lt_upper_bound; lia.
    + right. unfold half. case_bool_decide as Hh; nia.
Qed.

Lemma getStarRating_five_symbols_witness :
  ∃ full half empty,
    getStarRating (Finite 45 (-1)) = Returns (stars full half empty) ∧
    full = 45 / 10 ∧ (half = true ↔ 10 <= 2 * (45 `mod` 10)) ∧
    0 <= full ∧ 0 <= empty ∧ full + (if half then 1 else 0) + empty = 5.
Proof.
  apply (getStarRating_five_symbols 45 (-1)); [lia|]. cbn. lia.
Defined.

(** X26. [formatGenreName], for a slug that is not a name every object
    inherits: it returns the display name of one of the fifteen genres, or
    the slug itself when the genre is not one of them; it returns the empty
    string only for the empty slug; and formatting a second time changes
    nothing, no display name being a slug in its turn. *)
Theorem formatGenreName_names (slug : string) :
  ObjectPrototype.own_only slug →
  (formatGenreName slug = slug ∨ (slug, formatGenreName slug) ∈ genreMap) ∧
  (slug ∉ genreMap.*1 → formatGenreName slug = slug) ∧
  (formatGenreName slug = EmptyString → slug = EmptyString) ∧
  ObjectPrototype.own_only (formatGenreName slug) ∧
  formatGenreName (formatGenreName slug) = formatGenreName slug.
Proof.
  intros Hown.
  assert (∀ key name, (key, name) ∈ genreMap →
            name ≠ EmptyString ∧ ObjectPrototype.own_only name ∧
            env_get genreMap name = None) as Hnames.
  { intros key name Hin. unfold genreMap in Hin.
    repeat (apply elem_of_cons in Hin as [Hin|Hin];
            [injection Hin as -> ->;
             split; [discriminate|];
             split; [apply own_only_check; vm_compute; reflexivity | vm_compute; reflexivity]|]).
    by apply elem_of_nil in Hin. }
  assert (∀ table key name, env_get table key = Some name → (key, name) ∈ table) as Hget.
  { induction table as [|[k v] table IH]; intros key name; cbn [env_get]; [done|].
    case_decide as Hk.
    - intros [= ->]. subst k. apply list_elem_of_here.
    - intros H. apply list_elem_of_further. by apply IH. }
  unfold formatGenreName. destruct (env_get genreMap slug) as [name|] eqn:Hslug.
  - apply Hget in Hslug. destruct (Hnames _ _ Hslug) as (Hne & Hname & Hnone).
    rewrite decide_False by done. rewrite Hnone.
    split; [by right|]. split.
    { intros Hnin. destruct Hnin. apply list_elem_of_fmap. by exists (slug, name). }
    done.
  - rewrite Hslug. split; [by left|]. done.
Qed.

Lemma formatGenreName_names_witness :
  formatGenreName (formatGenreName "science-fiction") = formatGenreName "science-fiction".
Proof.
  apply (formatGenreName_names "science-fiction"). by apply own_only_check.
Defined.

End DisplayFacts.

(** ** The statistics view *)

Section StatsFacts.

Import TrackView Serving.

Lemma remove_dups_length {A : Type} `{EqDecision A} (l : list A) :
  (length (remove_dups l) <= length l)%nat.
Proof.
  induction l as [|x l IH]; cbn [remove_dups length]; [done|].
  destruct (decide_rel elem_of x l); cbn [length]; lia.
Qed.

Lemma remove_dups_nil_inv {A : Type} `{EqDecision A} (l : list A) :
  remove_dups l = [] → l = [].
Proof.
  destruct l as [|x l]; [done|]. intros H.
  assert (x ∈ remove_dups (x :: l)) as Hin by (apply elem_of_remove_dups, list_elem_of_here).
  rewrite H in Hin. by apply elem_of_nil in Hin.
Qed.

(** X27. Refreshing [bookshelf_stats] leaves the tables as they are and is
    idempotent. After a refresh the number of authors is at least 0 and at
    most the number of books, and is 0 exactly when there is no book; the
    number of genres is at most the number of genre rows. The statistics do
    not read the table of views: whatever request the ingestion handler has
    served, a refresh gives the statistics it would have given before. *)
Theorem refresh_bookshelf_stats_bounds (d : Datastore) :
  let refreshed := refresh_bookshelf_stats d in
  bookshelf_books refreshed = bookshelf_books d ∧
  bookshelf_book_genres refreshed = bookshelf_book_genres d ∧
  bookshelf_book_views refreshed = bookshelf_book_views d ∧
  refresh_bookshelf_stats refreshed = refreshed ∧
  total_books (bookshelf_stats refreshed) = Z.of_nat (length (bookshelf_books d)) ∧
  0 <= total_authors (bookshelf_stats refreshed) <= total_books (bookshelf_stats refreshed) ∧
  (total_authors (bookshelf_stats refreshed) = 0 ↔
   total_books (bookshelf_stats refreshed) = 0) ∧
  0 <= total_genres (bookshelf_stats refreshed)
    <= Z.of_nat (length (bookshelf_book_genres d)) ∧
  (∀ req env w, db w = d →
     bookshelf_stats (refresh_bookshelf_stats (db (handler req env w).2))
     = bookshelf_stats refreshed).
Proof.
  cbv zeta. unfold refresh_bookshelf_stats.
  cbn [bookshelf_books bookshelf_book_genres bookshelf_book_views bookshelf_stats
       total_books total_authors total_genres].
  pose proof (remove_dups_length (site_url <$> bookshelf_books d)) as Ha.
  pose proof (remove_dups_length (genre_slug <$> bookshelf_book_genres d)) as Hg.
  rewrite length_fmap in Ha. rewrite length_fmap in Hg.
  repeat (split; [first [done | lia]|]). split; [|split; [lia|]].
  - split; [|intros H; assert (bookshelf_books d = []) as ->
                         by (apply length_zero_iff_nil; lia); done].
    intros H.
    assert (remove_dups (site_url <$> bookshelf_books d) = []) as Hnil
      by (apply length_zero_iff_nil; lia).
    apply remove_dups_nil_inv, fmap_nil_inv in Hnil. by rewrite Hnil.
  - intros req env w <-.
    destruct (handler_handled req env w);
      cbn [snd db with_log insert_view counted with_store bookshelf_books
           bookshelf_book_genres];
      done.
Qed.

Lemma refresh_bookshelf_stats_bounds_witness :
  bookshelf_stats
    (refresh_bookshelf_stats
       (db (handler (request_from "POST" "203.0.113.7" (JsObject [("book_id", JsString "3")]))
                    quiet Books.shelf).2))
  = mkStats 5 3 0.
Proof.
  destruct (refresh_bookshelf_stats_bounds Books.five_books) as (_ & _ & _ & _ & _ & _ & _ & _ & H).
  rewrite (H _ _ Books.shelf eq_refl). vm_compute. reflexivity.
Defined.

End StatsFacts.
